(** * Correctly: the content script's input surveillance and correction engine

    A shallow embedding of [src/content/content.js]: the eligibility
    classifier, the host resolver, the debounce/check state machine, the
    correction orchestrator, the tooltip placement and the diff applier,
    followed by the properties the specification states about them. *)

From Stdlib Require Import Ascii String ZArith QArith Qminmax Lia.
From stdpp Require Import base list strings gmap.

Local Open Scope string_scope.
Local Open Scope nat_scope.

(** ** ECMAScript string primitives used by the script

    A JavaScript string is a sequence of UTF-16 code units.  The model keeps
    the code units that fit Rocq's [ascii] (0..255); every literal the script
    compares against lives there. *)
Module Js.

Definition dollar : ascii := "$"%char.
Definition ampersand : ascii := "&"%char.
Definition backtick : ascii := "`"%char.
Definition quote : ascii := "'"%char.

(** [s.substring(0, n)] *)
Fixpoint substringTo (n : nat) (s : string) : string :=
  match n, s with
  | S n', String c s' => String c (substringTo n' s')
  | _, _ => ""
  end.

(** [s.substring(n)] *)
Fixpoint substringFrom (n : nat) (s : string) : string :=
  match n, s with
  | S n', String _ s' => substringFrom n' s'
  | _, _ => s
  end.

(** Is [p] a prefix of [s]: the candidate comparison of StringIndexOf. *)
Fixpoint startsWith (p s : string) : bool :=
  match p, s with
  | "", _ => true
  | String a p', String b s' => if decide (a = b) then startsWith p' s' else false
  | String _ _, "" => false
  end.

(** ECMAScript StringIndexOf(string, searchValue, 0): the smallest index
    at which [search] occurs in [s]; the empty string occurs at 0. *)
Fixpoint StringIndexOf (s search : string) : option nat :=
  if startsWith search s then Some 0
  else match s with
       | "" => None
       | String _ s' => S <$> StringIndexOf s' search
       end.

(** ECMAScript GetSubstitution for a string pattern: there are no captures
    and no named captures, so [$n] and [$<] stay as they are written, while
    [$$], [$&], [$`] and [$'] are expanded. *)
Fixpoint GetSubstitution (matched str : string) (position : nat)
         (template : string) : string :=
  match template with
  | "" => ""
  | String c rest =>
      if decide (c = dollar) then
        match rest with
        | String d rest' =>
            if decide (d = dollar) then
              String dollar (GetSubstitution matched str position rest')
            else if decide (d = backtick) then
              substringTo position str
                +:+ GetSubstitution matched str position rest'
            else if decide (d = ampersand) then
              matched +:+ GetSubstitution matched str position rest'
            else if decide (d = quote) then
              substringFrom (position + String.length matched) str
                +:+ GetSubstitution matched str position rest'
            else String c (GetSubstitution matched str position rest)
        | "" => String c ""
        end
      else String c (GetSubstitution matched str position rest)
  end.

Fixpoint hasDollar (s : string) : bool :=
  match s with
  | "" => false
  | String c s' => if decide (c = dollar) then true else hasDollar s'
  end.

(** [String.prototype.replace(searchValue, replaceValue)] with both
    arguments strings: only the first occurrence is replaced, and the
    replacement text goes through GetSubstitution. *)
Definition replace (str searchString replaceValue : string) : string :=
  match StringIndexOf str searchString with
  | None => str
  | Some position =>
      let preceding := substringTo position str in
      let following :=
        substringFrom (position + String.length searchString) str in
      let replacement :=
        GetSubstitution searchString str position replaceValue in
      preceding +:+ replacement +:+ following
  end.

(** WhiteSpace and LineTerminator code units below 256: TAB, LF, VT, FF,
    CR, SP and NBSP. *)
Definition isWhiteSpace (c : ascii) : bool :=
  bool_decide (nat_of_ascii c ∈ [9; 10; 11; 12; 13; 32; 160]).

Fixpoint trimStart (s : string) : string :=
  match s with
  | String c s' => if isWhiteSpace c then trimStart s' else s
  | "" => ""
  end.

Fixpoint trimEnd (s : string) : string :=
  match s with
  | String c s' =>
      match trimEnd s' with
      | "" => if isWhiteSpace c then "" else String c ""
      | t => String c t
      end
  | "" => ""
  end.

(** [String.prototype.trim] *)
Definition trim (s : string) : string := trimEnd (trimStart s).

(** Lower-case mapping of a code unit below 256: A..Z, and the Latin-1
    capitals U+00C0..U+00DE without the multiplication sign U+00D7. *)
Definition lowerChar (c : ascii) : ascii :=
  let n := nat_of_ascii c in
  if bool_decide (65 ≤ n ≤ 90 ∨ (192 ≤ n ≤ 222 ∧ n ≠ 215))
  then ascii_of_nat (n + 32) else c.

(** [String.prototype.toLowerCase] on the modelled code units. *)
Fixpoint toLowerCase (s : string) : string :=
  match s with
  | "" => ""
  | String c s' => String (lowerChar c) (toLowerCase s')
  end.

End Js.

(** ** The part of the DOM the script reads *)
Module Dom.

(** An element as the script sees it: its identity, the properties and
    attributes the classifier consults, and its chain of ancestors. *)
#[warnings="-register-all"]
Inductive Node : Type := mkNode {
  nodeId : nat;
  tagName : string;
  type : string;
  isContentEditable : bool;
  disabled : bool;
  readOnly : bool;
  attributes : gmap string string;
  parentElement : option Node
}.

(** [document.documentElement] and [document.body], by identity. *)
Record Document : Type := mkDocument {
  documentElement : option nat;
  body : option nat
}.

(** [a === b] on element references. *)
Definition sameNode (a b : Node) : bool :=
  bool_decide (nodeId a = nodeId b).

(** [ref === el] where [ref] is a session variable that may hold [null]. *)
Definition refIs (ref : option Node) (el : Node) : bool :=
  match ref with
  | Some n => sameNode n el
  | None => false
  end.

Definition isDocumentElement (doc : Document) (n : Node) : bool :=
  bool_decide (documentElement doc = Some (nodeId n)).

Definition isBody (doc : Document) (n : Node) : bool :=
  bool_decide (body doc = Some (nodeId n)).

(** [node.getAttribute(name)]: [None] is JavaScript's [null]. *)
Definition getAttribute (n : Node) (name : string) : option string :=
  attributes n !! name.

End Dom.

(** ** Eligibility classifier and host resolver *)
Module Classifier.
Import Dom.

Record EligibilityDecision : Type := mkDecision { check : bool; reason : string }.

Definition dq : string := String "034"%char "".

Definition PROSE_INPUT_TYPES : gset string :=
  list_to_set ["text"; "search"; "email"].

Definition EXCLUDED_INPUT_TYPES : gset string :=
  list_to_set ["password"; "number"; "tel"; "url"; "date"; "datetime-local";
               "time"; "month"; "week"; "color"; "range"; "file"; "hidden"].

Definition EXCLUDED_INPUTMODES : gset string :=
  list_to_set ["numeric"; "decimal"; "tel"; "none"].

Definition EXCLUDED_AUTOCOMPLETE : gset string :=
  list_to_set ["cc-number"; "cc-exp"; "cc-csc"; "cc-type";
               "tel"; "tel-national"; "tel-country-code";
               "one-time-code"; "postal-code"; "bday"].

Definition EXCLUDED_ROLES : gset string :=
  list_to_set ["spinbutton"; "slider"; "switch"; "combobox"; "listbox"; "menu"].

(** [set.has(x)] *)
Definition has (set : gset string) (x : string) : bool :=
  bool_decide (x ∈ set).

(** [x || ''] on a value that is a string or [null]. *)
Definition orEmpty (x : option string) : string := default "" x.

(** The loop of [getInheritedAttr]: the element itself, then its
    ancestors, stopping in front of [document.documentElement]. *)
Fixpoint getInheritedAttr (doc : Document) (node : Node) (attrName : string)
  : option string :=
  if isDocumentElement doc node then None
  else match getAttribute node attrName with
       | Some val => Some (Js.toLowerCase val)
       | None =>
           match parentElement node with
           | Some parent => getInheritedAttr doc parent attrName
           | None => None
           end
       end.

(** Rule 2 of [shouldCheckElement]: either an early rejection (left) or
    the value of the local [eligible]. *)
Definition structuralEligibility (el : Node) : EligibilityDecision + bool :=
  if decide (tagName el = "TEXTAREA") then inr true
  else if decide (tagName el = "INPUT") then
    let type := Js.toLowerCase (if decide (type el = "") then "text" else type el) in
    if has PROSE_INPUT_TYPES type then inr true
    else if has EXCLUDED_INPUT_TYPES type then
      inl (mkDecision false ("input type=" +:+ dq +:+ type +:+ dq +:+ " excluded"))
    else inr false
  else if isContentEditable el then inr true
  else inr false.

(** Rules 3 to 8, reached once the element is structurally eligible. *)
Definition attributeRules (doc : Document) (el : Node) : EligibilityDecision :=
  if disabled el then mkDecision false "element is disabled"
  else if readOnly el then mkDecision false "element is readonly"
  else if decide (getAttribute el "aria-disabled" = Some "true") then
    mkDecision false ("aria-disabled=" +:+ dq +:+ "true" +:+ dq)
  else if decide (getAttribute el "aria-readonly" = Some "true") then
    mkDecision false ("aria-readonly=" +:+ dq +:+ "true" +:+ dq)
  else if decide (getInheritedAttr doc el "spellcheck" = Some "false") then
    mkDecision false ("spellcheck=" +:+ dq +:+ "false" +:+ dq)
  else
    let inputmode := Js.toLowerCase (orEmpty (getAttribute el "inputmode")) in
    if has EXCLUDED_INPUTMODES inputmode then
      mkDecision false ("inputmode=" +:+ dq +:+ inputmode +:+ dq +:+ " excluded")
    else
      let autocomplete := Js.toLowerCase (orEmpty (getAttribute el "autocomplete")) in
      if has EXCLUDED_AUTOCOMPLETE autocomplete then
        mkDecision false ("autocomplete=" +:+ dq +:+ autocomplete +:+ dq +:+ " excluded")
      else
        let role := Js.toLowerCase (orEmpty (getAttribute el "role")) in
        if has EXCLUDED_ROLES role then
          mkDecision false ("role=" +:+ dq +:+ role +:+ dq +:+ " excluded")
        else mkDecision true "eligible".

Definition shouldCheckElement (doc : Document) (el : option Node) : EligibilityDecision :=
  match el with
  | None => mkDecision false "null element"
  | Some el =>
      let correctly := getInheritedAttr doc el "data-correctly" in
      if decide (correctly = Some "false") then
        mkDecision false ("data-correctly=" +:+ dq +:+ "false" +:+ dq)
      else if decide (correctly = Some "true") then
        mkDecision true ("data-correctly=" +:+ dq +:+ "true" +:+ dq +:+ " (forced)")
      else
        match structuralEligibility el with
        | inl rejected => rejected
        | inr false => mkDecision false "not an editable prose element"
        | inr true => attributeRules doc el
        end
  end.

(** The loop of [resolveEditableHost].  A missing [contenteditable]
    attribute reads as [''] through [|| ''], as in the script. *)
Fixpoint findEditableHost (doc : Document) (node : Node) : option Node :=
  if isBody doc node || isDocumentElement doc node then None
  else
    let ce := Js.toLowerCase (orEmpty (getAttribute node "contenteditable")) in
    if bool_decide (ce ∈ ["true"; ""; "plaintext-only"]) then Some node
    else match parentElement node with
         | Some parent => findEditableHost doc parent
         | None => None
         end.

Definition resolveEditableHost (doc : Document) (el : option Node) : option Node :=
  match el with
  | None => None
  | Some el =>
      if bool_decide (tagName el = "INPUT" ∨ tagName el = "TEXTAREA") then Some el
      else Some (default el (findEditableHost doc el))
  end.

End Classifier.

(** ** Tooltip placement

    Coordinates are JavaScript numbers; the model computes with exact
    rationals, which agree with the script on the integer-valued boxes the
    properties below are about. *)
Module Placement.
Local Open Scope Q_scope.

(** The fields of a [DOMRect] the script reads. *)
Record Rect : Type := mkRect { top : Q; left : Q; width : Q; height : Q }.

Definition bottom (r : Rect) : Q := top r + height r.
Definition right (r : Rect) : Q := left r + width r.

(** [window.innerWidth], [innerHeight], [scrollX], [scrollY]. *)
Record Window : Type := mkWindow {
  innerWidth : Q; innerHeight : Q; scrollX : Q; scrollY : Q
}.

(** What [positionTooltip] leaves on the tooltip element. *)
Record Placed : Type := mkPlaced {
  placement : string;
  styleTop : Q;
  styleLeft : Q;
  datasetPlacement : string;
  arrowOffset : Q
}.

Definition TOOLTIP_GAP : Q := 8.
Definition VIEWPORT_PADDING : Q := 10.

(** [a >= b], [a > b] and [a < b] on numbers. *)
Definition geq (a b : Q) : bool := Qle_bool b a.
Definition gt (a b : Q) : bool := negb (Qle_bool a b).
Definition lt (a b : Q) : bool := negb (Qle_bool b a).

(** The locals [spaceBelow], [spaceAbove], [minTop] and [maxTop]. *)
Definition spaceBelow (elRect : Rect) (win : Window) : Q :=
  innerHeight win - bottom elRect.
Definition spaceAbove (elRect : Rect) : Q := top elRect.
Definition minTop (win : Window) : Q := scrollY win + VIEWPORT_PADDING.
Definition maxTop (tipRect : Rect) (win : Window) : Q :=
  scrollY win + innerHeight win - height tipRect - VIEWPORT_PADDING.

Definition positionTooltip (elRect tipRect : Rect) (win : Window) : Placed :=
  let tipW := width tipRect in
  let tipH := height tipRect in
  let vpW := innerWidth win in
  let spaceBelow := spaceBelow elRect win in
  let spaceAbove := spaceAbove elRect in
  let '(placement, top0) :=
    if geq spaceBelow (tipH + TOOLTIP_GAP + VIEWPORT_PADDING) then
      ("below", bottom elRect + scrollY win + TOOLTIP_GAP)
    else if geq spaceAbove (tipH + TOOLTIP_GAP + VIEWPORT_PADDING) then
      ("above", top elRect + scrollY win - tipH - TOOLTIP_GAP)
    else if geq spaceBelow spaceAbove then
      ("below-clamped", bottom elRect + scrollY win + TOOLTIP_GAP)
    else
      ("above-clamped", top elRect + scrollY win - tipH - TOOLTIP_GAP) in
  let left0 := left elRect + scrollX win in
  let left1 :=
    if gt (left0 + tipW) (scrollX win + vpW - VIEWPORT_PADDING)
    then scrollX win + vpW - tipW - VIEWPORT_PADDING else left0 in
  let left2 :=
    if lt left1 (scrollX win + VIEWPORT_PADDING)
    then scrollX win + VIEWPORT_PADDING else left1 in
  let top1 := Qmax (minTop win) (Qmin top0 (maxTop tipRect win)) in
  let elCenterX := left elRect + scrollX win + width elRect / 2 in
  {| placement := placement;
     styleTop := top1;
     styleLeft := left2;
     datasetPlacement := if Js.startsWith "above" placement then "above" else "below";
     arrowOffset := Qmax 20 (Qmin (elCenterX - left2) (tipW - 20)) |}.

(** The position [showIndicator] gives the indicator dot: inside the
    anchor's top right corner, moved to the left side near the right edge of
    the viewport and to the bottom near its top, then clamped. *)
Definition DOT_SIZE : Q := 10.
Definition INSET : Q := 8.

Record Dot : Type := mkDot { dotTop : Q; dotLeft : Q }.

Definition positionIndicator (rect : Rect) (win : Window) : Dot :=
  let vpW := innerWidth win in
  let top0 := top rect + scrollY win + INSET in
  let left0 := right rect + scrollX win - DOT_SIZE - INSET in
  let left1 :=
    if gt (right rect) (vpW - VIEWPORT_PADDING)
    then left rect + scrollX win + INSET else left0 in
  let top1 :=
    if lt (top rect) VIEWPORT_PADDING
    then bottom rect + scrollY win - DOT_SIZE - INSET else top0 in
  {| dotLeft := Qmax (scrollX win + VIEWPORT_PADDING)
                  (Qmin left1 (scrollX win + vpW - DOT_SIZE - VIEWPORT_PADDING));
     dotTop := Qmax (scrollY win + VIEWPORT_PADDING) top1 |}.

End Placement.

(** ** Session state, page and host runtime *)
Module Session.
Import Dom Classifier.

Definition DEBOUNCE_MS : nat := 1500.
Definition MIN_TEXT_LENGTH : nat := 10.

Record Change : Type := mkChange {
  original : string; replacement : string; explanation : string
}.

(** [response.data]; a missing [changes] counts as the empty sequence
    ([changes?.length || 0]). *)
Record CorrectionResult : Type := mkCorrection {
  corrected : string; changes : list Change
}.

(** How the promise of [chrome.runtime.sendMessage] settles. *)
Inductive Response : Type :=
| Success (data : CorrectionResult)   (* resolved, success: true *)
| Failure (error : string)            (* resolved, success: false *)
| Rejected (message : string).        (* rejected: the catch branch *)

(** A displayed [.correctly-change] row and its [data-index]. *)
Record Row : Type := mkRow { dataIndex : nat; shown : Change }.

(** The tooltip element: the [correctly-visible] class, whether the
    Accept All button is displayed, and the rows of its body.  The inline
    position written by [positionTooltip] is never read back by the script
    and is modelled on its own in [Placement]. *)
Record Tooltip : Type := mkTooltip {
  visible : bool; acceptDisplayed : bool; rows : list Row
}.

(** A pending [setTimeout]: its handle, when it is due, and the element its
    callback closes over. *)
Record Timer : Type := mkTimer { timerId : nat; deadline : nat; target : Node }.

(** What the script does to the outside, newest first in [trace]. *)
Inductive Action : Type :=
| DebounceComplete (el : nat)           (* the debounce callback ran *)
| SendMessage (text : string)           (* CHECK_GRAMMAR sent to the background *)
| IndicatorShown (el : nat)             (* an indicator was appended to the body *)
| RemoveIndicator (removed : nat)       (* a call of removeIndicator *)
| TextWritten (el : nat) (text : string)  (* el.value / el.innerText assigned *)
| ErrorLogged (message : string).       (* log.error *)

(** The script's variables, then the page (the text each element exposes
    through [value] or [innerText], the number of indicator elements), then
    the host's clock and timers.  Timer handles are positive, so the
    script's truthiness test on [debounceTimer] is a null test. *)
Record World : Type := mkWorld {
  debounceTimer : option nat;
  activeElement : option Node;
  tooltipEl : option Tooltip;
  currentCorrection : option CorrectionResult;
  applyingCorrection : bool;
  dismissedElement : option Node;
  lastLoggedElement : option Node;
  textOf : gmap nat string;
  indicators : nat;
  now : nat;
  timers : list Timer;
  nextTimerId : nat;
  trace : list Action
}.

(** Assignments to one variable or one part of the page. *)
Definition set_debounceTimer (v : option nat) (w : World) : World :=
  mkWorld v (activeElement w) (tooltipEl w) (currentCorrection w)
    (applyingCorrection w) (dismissedElement w) (lastLoggedElement w)
    (textOf w) (indicators w) (now w) (timers w) (nextTimerId w) (trace w).

Definition set_activeElement (v : option Node) (w : World) : World :=
  mkWorld (debounceTimer w) v (tooltipEl w) (currentCorrection w)
    (applyingCorrection w) (dismissedElement w) (lastLoggedElement w)
    (textOf w) (indicators w) (now w) (timers w) (nextTimerId w) (trace w).

Definition set_tooltipEl (v : option Tooltip) (w : World) : World :=
  mkWorld (debounceTimer w) (activeElement w) v (currentCorrection w)
    (applyingCorrection w) (dismissedElement w) (lastLoggedElement w)
    (textOf w) (indicators w) (now w) (timers w) (nextTimerId w) (trace w).

Definition set_currentCorrection (v : option CorrectionResult) (w : World) : World :=
  mkWorld (debounceTimer w) (activeElement w) (tooltipEl w) v
    (applyingCorrection w) (dismissedElement w) (lastLoggedElement w)
    (textOf w) (indicators w) (now w) (timers w) (nextTimerId w) (trace w).

Definition set_applyingCorrection (v : bool) (w : World) : World :=
  mkWorld (debounceTimer w) (activeElement w) (tooltipEl w)
    (currentCorrection w) v (dismissedElement w) (lastLoggedElement w)
    (textOf w) (indicators w) (now w) (timers w) (nextTimerId w) (trace w).

Definition set_dismissedElement (v : option Node) (w : World) : World :=
  mkWorld (debounceTimer w) (activeElement w) (tooltipEl w)
    (currentCorrection w) (applyingCorrection w) v (lastLoggedElement w)
    (textOf w) (indicators w) (now w) (timers w) (nextTimerId w) (trace w).

Definition set_lastLoggedElement (v : option Node) (w : World) : World :=
  mkWorld (debounceTimer w) (activeElement w) (tooltipEl w)
    (currentCorrection w) (applyingCorrection w) (dismissedElement w) v
    (textOf w) (indicators w) (now w) (timers w) (nextTimerId w) (trace w).

Definition set_textOf (v : gmap nat string) (w : World) : World :=
  mkWorld (debounceTimer w) (activeElement w) (tooltipEl w)
    (currentCorrection w) (applyingCorrection w) (dismissedElement w)
    (lastLoggedElement w) v (indicators w) (now w) (timers w) (nextTimerId w)
    (trace w).

Definition set_indicators (v : nat) (w : World) : World :=
  mkWorld (debounceTimer w) (activeElement w) (tooltipEl w)
    (currentCorrection w) (applyingCorrection w) (dismissedElement w)
    (lastLoggedElement w) (textOf w) v (now w) (timers w) (nextTimerId w)
    (trace w).

Definition set_now (v : nat) (w : World) : World :=
  mkWorld (debounceTimer w) (activeElement w) (tooltipEl w)
    (currentCorrection w) (applyingCorrection w) (dismissedElement w)
    (lastLoggedElement w) (textOf w) (indicators w) v (timers w)
    (nextTimerId w) (trace w).

Definition set_timers (v : list Timer) (w : World) : World :=
  mkWorld (debounceTimer w) (activeElement w) (tooltipEl w)
    (currentCorrection w) (applyingCorrection w) (dismissedElement w)
    (lastLoggedElement w) (textOf w) (indicators w) (now w) v (nextTimerId w)
    (trace w).

Definition set_nextTimerId (v : nat) (w : World) : World :=
  mkWorld (debounceTimer w) (activeElement w) (tooltipEl w)
    (currentCorrection w) (applyingCorrection w) (dismissedElement w)
    (lastLoggedElement w) (textOf w) (indicators w) (now w) (timers w) v
    (trace w).

Definition set_trace (v : list Action) (w : World) : World :=
  mkWorld (debounceTimer w) (activeElement w) (tooltipEl w)
    (currentCorrection w) (applyingCorrection w) (dismissedElement w)
    (lastLoggedElement w) (textOf w) (indicators w) (now w) (timers w)
    (nextTimerId w) v.

Definition emit (a : Action) (w : World) : World :=
  set_trace (a :: trace w) w.

Definition init (page : gmap nat string) : World :=
  mkWorld None None None None false None None page 0 0 [] 1 [].

(** A number as [parseInt] returns it. *)
Inductive JsNumber : Type := NaN | Int (z : Z).

(** [array[index]]: [None] is [undefined]. *)
Definition at_index {A} (l : list A) (index : JsNumber) : option (nat * A) :=
  match index with
  | Int z => if (0 <=? z)%Z then (fun x => (Z.to_nat z, x)) <$> l !! Z.to_nat z else None
  | NaN => None
  end.

(** How a call ends: it returns, or a TypeError escapes it. *)
Inductive Outcome : Type := Returned (w : World) | Threw (w : World).

Definition world_of (o : Outcome) : World :=
  match o with Returned w => w | Threw w => w end.

Definition isTextField (el : Node) : bool :=
  bool_decide (tagName el = "INPUT" ∨ tagName el = "TEXTAREA").

Definition getTextFromElement (el : Node) (w : World) : string :=
  if isTextField el then default "" (textOf w !! nodeId el)
  else if isContentEditable el then default "" (textOf w !! nodeId el)
  else "".

Definition setTimeout (el : Node) (delay : nat) (w : World) : nat * World :=
  let id := nextTimerId w in
  (id, set_nextTimerId (S id)
         (set_timers (timers w ++ [mkTimer id (now w + delay) el]) w)).

Definition clearTimeout (id : nat) (w : World) : World :=
  set_timers (filter (λ t, timerId t ≠ id) (timers w)) w.

Definition removeIndicator (w : World) : World :=
  emit (RemoveIndicator (indicators w)) (set_indicators 0 w).

Definition showIndicator (element : Node) (w : World) : World :=
  let w := removeIndicator w in
  emit (IndicatorShown (nodeId element)) (set_indicators (S (indicators w)) w).

(** Creates the tooltip element the first time it is asked for. *)
Definition createTooltip (w : World) : Tooltip * World :=
  match tooltipEl w with
  | Some tip => (tip, w)
  | None =>
      let tip := mkTooltip false true [] in
      (tip, set_tooltipEl (Some tip) w)
  end.

Definition showTooltip (element : Node) (correction : CorrectionResult)
           (w : World) : World :=
  let w := set_currentCorrection (Some correction) w in
  let '(tip, w) := createTooltip w in
  let tip :=
    match changes correction with
    | [] => mkTooltip (visible tip) false []
    | cs => mkTooltip (visible tip) true (imap mkRow cs)
    end in
  set_tooltipEl (Some (mkTooltip true (acceptDisplayed tip) (rows tip))) w.

Definition hideTooltip (w : World) : World :=
  let w :=
    match tooltipEl w with
    | Some tip =>
        if visible tip
        then set_tooltipEl (Some (mkTooltip false (acceptDisplayed tip) (rows tip))) w
        else w
    | None => w
    end in
  removeIndicator (set_currentCorrection None w).

(** The synchronous part of [checkGrammar], up to the [await]. *)
Definition checkGrammar (element : Node) (w : World) : World :=
  if refIs (dismissedElement w) element then w
  else
    let text := getTextFromElement element w in
    if (String.length (Js.trim text) <? MIN_TEXT_LENGTH)%nat then w
    else emit (SendMessage text) (showIndicator element w).

(** The rest of [checkGrammar], run when the request settles. *)
Definition checkGrammarSettled (element : Node) (response : Response)
           (w : World) : World :=
  match response with
  | Success data =>
      let w := removeIndicator w in
      match changes data with
      | [] => w
      | _ :: _ => showTooltip element data w
      end
  | Failure error => emit (ErrorLogged error) (removeIndicator w)
  | Rejected message => emit (ErrorLogged message) (removeIndicator w)
  end.

Definition handleInput (doc : Document) (raw : Node) (w : World) : World :=
  if applyingCorrection w then w
  else
    let el := resolveEditableHost doc (Some raw) in
    if negb (check (shouldCheckElement doc el)) then w
    else match el with
         | None => w
         | Some el =>
             let w := if negb (refIs (lastLoggedElement w) el)
                      then set_lastLoggedElement (Some el) w else w in
             let w := if refIs (dismissedElement w) el
                      then set_dismissedElement None w else w in
             let w := set_activeElement (Some el) w in
             let w := match debounceTimer w with
                      | Some id => clearTimeout id w
                      | None => w
                      end in
             let '(id, w) := setTimeout el DEBOUNCE_MS w in
             set_debounceTimer (Some id) w
         end.

(** The callback [handleInput] hands to [setTimeout]. *)
Definition debounceCallback (el : Node) (w : World) : World :=
  checkGrammar el (emit (DebounceComplete (nodeId el)) (set_debounceTimer None w)).

(** [relatedInTooltip] is [tooltipEl.contains(event.relatedTarget)]. *)
Definition handleFocusOut (doc : Document) (raw : Node) (relatedInTooltip : bool)
           (w : World) : World :=
  if bool_decide (is_Some (tooltipEl w)) && relatedInTooltip then w
  else
    let el := resolveEditableHost doc (Some raw) in
    if negb (check (shouldCheckElement doc el)) then w
    else match el with
         | None => w
         | Some el =>
             let w := match debounceTimer w with
                      | Some id => set_debounceTimer None (clearTimeout id w)
                      | None => w
                      end in
             let text := getTextFromElement el w in
             if (String.length (Js.trim text) <? MIN_TEXT_LENGTH)%nat then w
             else checkGrammar el (set_activeElement (Some el) w)
         end.

(** The write dispatches an input event, which reaches [handleInput]
    before [setTextOnElement] returns. *)
Definition setTextOnElement (doc : Document) (el : Node) (text : string)
           (w : World) : World :=
  if isTextField el || isContentEditable el then
    let w := set_textOf (<[nodeId el := text]> (textOf w)) w in
    handleInput doc el (emit (TextWritten (nodeId el) text) w)
  else w.

(** The write of the Diff Applier: the three statements that raise the
    guard, write, and lower the guard. *)
Definition guardedWrite (doc : Document) (el : Node) (text : string)
           (w : World) : World :=
  let w := set_applyingCorrection true w in
  let w := setTextOnElement doc el text w in
  set_applyingCorrection false w.

(** [tooltipEl.querySelector('.correctly-change[data-index=...]')] and
    [remove()] on what it finds. *)
Fixpoint removeRow (index : nat) (rs : list Row) : list Row :=
  match rs with
  | [] => []
  | r :: rs' => if decide (dataIndex r = index) then rs' else r :: removeRow index rs'
  end.

Definition reindexRows (rs : list Row) : list Row :=
  imap (λ i r, mkRow i (shown r)) rs.

Definition acceptSingleCorrection (doc : Document) (index : JsNumber)
           (w : World) : Outcome :=
  match activeElement w, currentCorrection w with
  | Some el, Some correction =>
      match at_index (changes correction) index with
      | None => Returned w
      | Some (i, change) =>
          let currentText := getTextFromElement el w in
          let updatedText :=
            Js.replace currentText (original change) (replacement change) in
          let w := guardedWrite doc el updatedText w in
          match currentCorrection w with
          | None => Threw w
          | Some correction =>
              let remaining := delete i (changes correction) in
              let w := set_currentCorrection
                         (Some (mkCorrection updatedText remaining)) w in
              match tooltipEl w with
              | None => Threw w
              | Some tip =>
                  let tip := mkTooltip (visible tip) (acceptDisplayed tip)
                               (removeRow i (rows tip)) in
                  let w := set_tooltipEl (Some tip) w in
                  match remaining with
                  | [] => Returned (hideTooltip w)
                  | _ :: _ =>
                      Returned (set_tooltipEl
                                  (Some (mkTooltip (visible tip) (acceptDisplayed tip)
                                           (reindexRows (rows tip)))) w)
                  end
              end
          end
      end
  | _, _ => Returned w
  end.

Definition applyChange (text : string) (change : Change) : string :=
  Js.replace text (original change) (replacement change).

Definition acceptCorrections (doc : Document) (w : World) : World :=
  let w :=
    match activeElement w, currentCorrection w with
    | Some el, Some correction =>
        match changes correction with
        | [] => w
        | cs =>
            let text := foldl applyChange (getTextFromElement el w) cs in
            guardedWrite doc el text w
        end
    | _, _ => w
    end in
  hideTooltip w.

(** The Dismiss button. *)
Definition dismiss (w : World) : World :=
  hideTooltip (set_dismissedElement (activeElement w) w).

(** The click listener on the document; [inTooltip] is
    [tooltipEl.contains(e.target)]. *)
Definition documentClick (clicked : Node) (inTooltip : bool) (w : World) : World :=
  match tooltipEl w with
  | Some tip =>
      if visible tip && negb inTooltip && negb (refIs (activeElement w) clicked)
      then hideTooltip w else w
  | None => w
  end.

(** *** The host's event loop: a clock, timers, and events in delivery order *)

Definition isDue (t : nat) (tm : Timer) : bool := bool_decide (deadline tm ≤ t).

(** Runs the callbacks of the timers due by time [t], oldest first.  A
    callback arms no timer, so one turn for each pending timer is enough. *)
Fixpoint fireDue (fuel t : nat) (w : World) : World :=
  match fuel with
  | O => w
  | S fuel' =>
      match List.find (isDue t) (timers w) with
      | None => w
      | Some tm =>
          let w := set_timers (filter (λ x, timerId x ≠ timerId tm) (timers w)) w in
          let w := set_now (Nat.max (now w) (deadline tm)) w in
          fireDue fuel' t (debounceCallback (target tm) w)
      end
  end.

(** Lets time pass until [t]. *)
Definition advance (t : nat) (w : World) : World :=
  set_now (Nat.max (now w) t) (fireDue (length (timers w)) t w).

Inductive Event : Type :=
| Input (raw : Node)                         (* an input event on [raw] *)
| FocusOut (raw : Node) (relatedInTooltip : bool)
| Edit (el : nat) (text : string)            (* the element's text changes *)
| Settled (el : Node) (response : Response)  (* a request of a check settles *)
| AcceptOne (index : JsNumber)
| AcceptAll
| Dismiss
| Close
| Click (clicked : Node) (inTooltip : bool).

Definition dispatch (doc : Document) (ev : Event) (w : World) : World :=
  match ev with
  | Input raw => handleInput doc raw w
  | FocusOut raw related => handleFocusOut doc raw related w
  | Edit el text => set_textOf (<[el := text]> (textOf w)) w
  | Settled el response => checkGrammarSettled el response w
  | AcceptOne index => world_of (acceptSingleCorrection doc index w)
  | AcceptAll => acceptCorrections doc w
  | Dismiss => dismiss w
  | Close => hideTooltip w
  | Click clicked inTooltip => documentClick clicked inTooltip w
  end.

(** Events with the time each is delivered at. *)
Fixpoint run (doc : Document) (timeline : list (nat * Event)) (w : World) : World :=
  match timeline with
  | [] => w
  | (t, ev) :: rest => run doc rest (dispatch doc ev (advance t w))
  end.

End Session.

(** ** The provider contract ([providers/base-provider.js]) *)
Module Provider.
Import Session.

(** A JavaScript value as [JSON.parse] or storage delivers it.  An object is
    the list of its own properties, one entry for each key. *)
#[warnings="-register-all"]
Inductive Value : Type :=
| Undefined
| Null
| Boolean (b : bool)
| Number (q : Q)
| Text (s : string)
| Array (items : list Value)
| Object (props : list (string * Value)).

(** The [throw] statements of the provider and of the service worker. *)
Inductive Failure : Type :=
| ApiKeyRequired              (* 'API key is required' *)
| InvalidResponse             (* 'Provider returned invalid response ...' *)
| MissingCorrected            (* 'Provider response missing "corrected" string' *)
| MissingChanges              (* 'Provider response missing "changes" array' *)
| MalformedChange (i : nat)   (* 'Provider response changes[i] must have ...' *)
| Disabled                    (* 'Correctly is disabled' *)
| NoApiKey                    (* 'No API key configured. ...' *)
| UnknownProvider (id : string)
| BrokenContract              (* thrown by _enforceStaticContract *)
| Upstream (message : string). (* thrown by the provider's own API call *)

Inductive Result (A : Type) : Type :=
| Returns (a : A)
| Throws (e : Failure).
Arguments Returns {A} a.
Arguments Throws {A} e.

(** [typeof v] *)
Definition typeOf (v : Value) : string :=
  match v with
  | Undefined => "undefined"
  | Null | Array _ | Object _ => "object"
  | Boolean _ => "boolean"
  | Number _ => "number"
  | Text _ => "string"
  end.

(** [!!v] *)
Definition truthy (v : Value) : bool :=
  match v with
  | Undefined | Null => false
  | Boolean b => b
  | Number q => negb (Qeq_bool q 0)
  | Text s => negb (bool_decide (s = ""))
  | Array _ | Object _ => true
  end.

Fixpoint lookupProp (props : list (string * Value)) (key : string) : Value :=
  match props with
  | [] => Undefined
  | (k, v) :: rest => if decide (k = key) then v else lookupProp rest key
  end.

(** [v.key] for the keys this code reads ([corrected], [changes],
    [original], [replacement], [explanation]), which no built-in prototype
    defines: anything but an object answers [undefined]. *)
Definition get (v : Value) (key : string) : Value :=
  match v with
  | Object props => lookupProp props key
  | _ => Undefined
  end.

(** [typeof v === 'string'] *)
Definition isString (v : Value) : bool :=
  match v with Text _ => true | _ => false end.

Definition validateApiKey (apiKey : Value) : Result bool :=
  if negb (truthy apiKey) || negb (isString apiKey)
     || match apiKey with
        | Text s => bool_decide (Js.trim s = "")
        | _ => false
        end
  then Throws ApiKeyRequired
  else Returns true.

(** The test of one entry of [changes] in [_validateResponse], negated. *)
Definition changeIsValid (c : Value) : bool :=
  truthy c && isString (get c "original") && isString (get c "replacement")
  && isString (get c "explanation").

(** The loop over [result.changes]: the index of the first entry that fails
    the test. *)
Fixpoint firstMalformed (i : nat) (items : list Value) : option nat :=
  match items with
  | [] => None
  | c :: rest => if changeIsValid c then firstMalformed (S i) rest else Some i
  end.

Definition _validateResponse (result : Value) : Result Value :=
  if negb (truthy result) || negb (bool_decide (typeOf result = "object")) then
    Throws InvalidResponse
  else if negb (isString (get result "corrected")) then Throws MissingCorrected
  else match get result "changes" with
       | Array items =>
           match firstMalformed 0 items with
           | Some i => Throws (MalformedChange i)
           | None => Returns result
           end
       | _ => Throws MissingChanges
       end.

(** What the provider's own [_doCorrectGrammar] comes back with: the parsed
    reply of the service, or an error. *)
Inductive Upcall : Type :=
| Delivered (result : Value)
| Failed (message : string).

(** [correctGrammar(text)] of an instance holding [apiKey], with
    [_doCorrectGrammar] as the subclass implements it. *)
Definition correctGrammar (apiKey : Value) (_doCorrectGrammar : string → Upcall)
           (text : string) : Result Value :=
  match validateApiKey apiKey with
  | Throws e => Throws e
  | Returns _ =>
      if bool_decide (text = "") || bool_decide (String.length (Js.trim text) = 0)
      then Returns (Object [("corrected", Text text); ("changes", Array [])])
      else match _doCorrectGrammar text with
           | Failed message => Throws (Upstream message)
           | Delivered result => _validateResponse result
           end
  end.

(** The response contract as a typed value, and how the content script
    reads a result: [data.corrected], [data.changes], and the three fields of
    each change. *)
Definition encodeChange (c : Change) : Value :=
  Object [("original", Text (original c)); ("replacement", Text (replacement c));
          ("explanation", Text (explanation c))].

Definition encode (r : CorrectionResult) : Value :=
  Object [("corrected", Text (corrected r));
          ("changes", Array (encodeChange <$> changes r))].

Definition decodeChange (c : Value) : option Change :=
  match get c "original", get c "replacement", get c "explanation" with
  | Text o, Text r, Text e => Some (mkChange o r e)
  | _, _, _ => None
  end.

Definition decode (v : Value) : option CorrectionResult :=
  match get v "corrected", get v "changes" with
  | Text s, Array items => mkCorrection s <$> mapM decodeChange items
  | _, _ => None
  end.

(** *** Static metadata and construction *)

Record ModelInfo : Type := mkModel { modelId : string; label : string; hint : string }.

(** The static getters of a provider class that implements them all. *)
Record ProviderClass : Type := mkClass {
  id : string;
  displayName : string;
  models : list ModelInfo;
  defaultModel : string;
  keyPlaceholder : string
}.

Record Instance : Type := mkInstance {
  providerClass : ProviderClass;
  apiKey : string;
  model : string
}.

(** [_enforceStaticContract]: a non-empty list of models, each with an id, a
    label and a hint, and a default model that is one of them. *)
Definition _enforceStaticContract (P : ProviderClass) : Result unit :=
  if bool_decide (models P = []) then Throws BrokenContract
  else if negb (forallb (λ m, negb (bool_decide (modelId m = ""))
                              && negb (bool_decide (label m = ""))
                              && negb (bool_decide (hint m = ""))) (models P))
  then Throws BrokenContract
  else if negb (existsb (λ m, bool_decide (modelId m = defaultModel P)) (models P))
  then Throws BrokenContract
  else Returns tt.

(** [new P(apiKey, model)]; a missing or empty [model] takes the default. *)
Definition construct (P : ProviderClass) (apiKey : string) (model : option string)
  : Result Instance :=
  match _enforceStaticContract P with
  | Throws e => Throws e
  | Returns _ =>
      Returns (mkInstance P apiKey
                 (match model with
                  | Some m => if decide (m = "") then defaultModel P else m
                  | None => defaultModel P
                  end))
  end.

Definition OpenAIProvider : ProviderClass :=
  mkClass "openai" "OpenAI"
    [mkModel "gpt-4o-mini" "GPT-4o Mini" "Fast & cheap";
     mkModel "gpt-4o" "GPT-4o" "Best quality";
     mkModel "gpt-4.1-nano" "GPT-4.1 Nano" "Fastest, lowest cost";
     mkModel "gpt-4.1-mini" "GPT-4.1 Mini" "Balanced";
     mkModel "gpt-4.1" "GPT-4.1" "Most capable"]
    "gpt-4o-mini" "sk-...".

Definition PROVIDER_CLASSES : list ProviderClass := [OpenAIProvider].

(** [PROVIDERS_BY_ID[providerId]] on the registered ids.  An id that names a
    member every object inherits ("constructor", "toString", ...) is outside
    this model. *)
Definition PROVIDERS_BY_ID (providerId : string) : option ProviderClass :=
  List.find (λ P, bool_decide (id P = providerId)) (rev PROVIDER_CLASSES).

Definition createProvider (providerId apiKey : string) (model : option string)
  : Result Instance :=
  match PROVIDERS_BY_ID providerId with
  | None => Throws (UnknownProvider providerId)
  | Some P => construct P apiKey model
  end.

End Provider.

(** ** The service worker ([background/service-worker.js]) and start-up *)
Module Worker.
Import Session Provider.

(** [chrome.storage.local.get] for the four settings, as the popup writes
    them; [None] is a key that was never set. *)
Record Settings : Type := mkSettings {
  providerId : option string;
  storedKey : option string;
  storedModel : option string;
  enabled : option bool
}.

Record Status : Type := mkStatus { statusEnabled : bool; configured : bool }.

(** [Boolean(apiKey)] on a stored key. *)
Definition hasKey (s : Settings) : bool :=
  match storedKey s with
  | Some k => negb (bool_decide (k = ""))
  | None => false
  end.

Definition getExtensionStatus (s : Settings) : Status :=
  {| statusEnabled := negb (bool_decide (enabled s = Some false));
     configured := hasKey s |}.

(** [cachedProvider] and [cachedProviderKey]. *)
Record Cache : Type := mkCache {
  cachedProvider : option Instance;
  cachedProviderKey : string
}.

Definition emptyCache : Cache := mkCache None "".

(** The template string [providerId|apiKey|model]; an undefined model
    prints as "undefined". *)
Definition providerCacheKey (providerId apiKey : string) (model : option string)
  : string :=
  providerId +:+ "|" +:+ apiKey +:+ "|" +:+ default "undefined" model.

Definition getOrCreateProvider (providerId apiKey : string)
           (model : option string) (cache : Cache) : Result Instance * Cache :=
  let key := providerCacheKey providerId apiKey model in
  match cachedProvider cache with
  | Some p =>
      if decide (cachedProviderKey cache = key) then (Returns p, cache)
      else match createProvider providerId apiKey model with
           | Returns p' => (Returns p', mkCache (Some p') key)
           | Throws e => (Throws e, cache)
           end
  | None =>
      match createProvider providerId apiKey model with
      | Returns p' => (Returns p', mkCache (Some p') key)
      | Throws e => (Throws e, cache)
      end
  end.

(** The storage listener: a change of the provider, the key or the model
    empties the cache. *)
Definition storageChanged (keys : list string) (cache : Cache) : Cache :=
  if bool_decide ("providerId" ∈ keys ∨ "apiKey" ∈ keys ∨ "model" ∈ keys)
  then emptyCache else cache.

(** [providerId || 'openai'] *)
Definition providerOrDefault (s : Settings) : string :=
  match providerId s with
  | Some p => if decide (p = "") then "openai" else p
  | None => "openai"
  end.

(** [handleGrammarCheck(text)]; [call p] is [_doCorrectGrammar] of the
    instance [p]. *)
Definition handleGrammarCheck (s : Settings) (call : Instance → string → Upcall)
           (text : string) (cache : Cache) : Result Value * Cache :=
  if bool_decide (enabled s = Some false) then (Throws Disabled, cache)
  else if negb (hasKey s) then (Throws NoApiKey, cache)
  else
    match getOrCreateProvider (providerOrDefault s) (default "" (storedKey s))
            (storedModel s) cache with
    | (Throws e, cache) => (Throws e, cache)
    | (Returns provider, cache) =>
        (correctGrammar (Text (apiKey provider)) (call provider) text, cache)
    end.

(** What the message listener passes to [sendResponse] for a
    [CHECK_GRAMMAR] request. *)
Inductive Reply : Type :=
| ReplySuccess (data : Value)     (* { success: true, data } *)
| ReplyFailure (error : Failure). (* { success: false, error } *)

Definition checkGrammarMessage (s : Settings) (call : Instance → string → Upcall)
           (text : string) (cache : Cache) : Reply * Cache :=
  match handleGrammarCheck s call text cache with
  | (Returns result, cache) => (ReplySuccess result, cache)
  | (Throws e, cache) => (ReplyFailure e, cache)
  end.

(** What [verifySettings] resolves with. *)
Inductive Verdict : Type :=
| Verified                      (* { success: true } *)
| UnexpectedResponse            (* 'Unexpected response from provider' *)
| Refused (error : Failure).    (* the catch branch *)

Definition verifySettings (providerId apiKey : string) (model : option string)
           (call : Instance → string → Upcall) : Verdict :=
  match createProvider (if decide (providerId = "") then "openai" else providerId)
          apiKey model with
  | Throws e => Refused e
  | Returns provider =>
      match correctGrammar (Text (Provider.apiKey provider)) (call provider)
              "This is a test." with
      | Throws e => Refused e
      | Returns result =>
          if truthy result && isString (get result "corrected")
          then Verified else UnexpectedResponse
      end
  end.

(** [init] of the content script: whether it attaches its listeners, given
    what it gets for [GET_STATUS] (the status, or [None] for a rejected
    request). *)
Definition init (status : option Status) : bool :=
  match status with
  | None => false
  | Some st =>
      if negb (configured st) then false
      else if negb (statusEnabled st) then false
      else true
  end.

End Worker.

(** ** Vocabulary of the properties *)
Module Props.
Import Dom Classifier Session.

(** The nearest explicitly-set value of an attribute, searched from the
    element upward and stopping in front of the document root. *)
Inductive nearestExplicit (doc : Document) (attrName : string)
  : Node → string → Prop :=
| nearest_here node val :
    isDocumentElement doc node = false →
    getAttribute node attrName = Some val →
    nearestExplicit doc attrName node val
| nearest_above node parent val :
    isDocumentElement doc node = false →
    getAttribute node attrName = None →
    parentElement node = Some parent →
    nearestExplicit doc attrName parent val →
    nearestExplicit doc attrName node val.

(** The variables an input event may touch, and the pending timers. *)
Definition tracking (w : World)
  : option nat * list Timer * option Node * option Node * option Node :=
  (debounceTimer w, timers w, activeElement w, lastLoggedElement w,
   dismissedElement w).

(** [index] names no entry of an array of length [n]. *)
Definition outOfRange (index : JsNumber) (n : nat) : Prop :=
  match index with
  | NaN => True
  | Int z => (z < 0 ∨ Z.of_nat n ≤ z)%Z
  end.

(** An input event on [raw] that passes the classifier for [el], the
    element it resolves to. *)
Definition qualifies (doc : Document) (raw el : Node) : Prop :=
  resolveEditableHost doc (Some raw) = Some el ∧
  check (shouldCheckElement doc (Some el)) = true.

(** Every pending timer is the one [debounceTimer] holds. *)
Definition timersTracked (w : World) : Prop :=
  ∀ tm, tm ∈ timers w → debounceTimer w = Some (timerId tm).

(** What holds between two events: the guard is down, the pending timers
    are tracked, and a current correction has its tooltip. *)
Definition wellFormed (w : World) : Prop :=
  applyingCorrection w = false ∧
  timersTracked w ∧
  (is_Some (currentCorrection w) → is_Some (tooltipEl w)).

(** The debounce timer is armed for [el], by an input at time [latest]. *)
Definition armedFor (el : Node) (latest : nat) (w : World) : Prop :=
  applyingCorrection w = false ∧
  refIs (dismissedElement w) el = false ∧
  ∃ id, debounceTimer w = Some id ∧
        timers w = [mkTimer id (latest + DEBOUNCE_MS) el].

(** A burst on [el]: each event comes no earlier than the one before it
    and less than the quiet period after the latest input; it is either a
    qualifying input on [el] or a change of some element's text. *)
Fixpoint burst (doc : Document) (el : Node) (previous latest : nat)
         (timeline : list (nat * Event)) : Prop :=
  match timeline with
  | [] => True
  | (t, ev) :: rest =>
      previous ≤ t ∧ t < latest + DEBOUNCE_MS ∧
      match ev with
      | Input raw => qualifies doc raw el ∧ burst doc el t t rest
      | Edit _ _ => burst doc el t latest rest
      | _ => False
      end
  end.

(** The time of the last input of a timeline, [latest] if it has none. *)
Fixpoint latestInput (latest : nat) (timeline : list (nat * Event)) : nat :=
  match timeline with
  | [] => latest
  | (t, Input _) :: rest => latestInput t rest
  | _ :: rest => latestInput latest rest
  end.

(** The page after the edits of a timeline. *)
Fixpoint edited (timeline : list (nat * Event)) (page : gmap nat string)
  : gmap nat string :=
  match timeline with
  | [] => page
  | (_, Edit el text) :: rest => edited rest (<[el := text]> page)
  | _ :: rest => edited rest page
  end.

Definition isFired (a : Action) : bool :=
  match a with DebounceComplete _ => true | _ => false end.

(** How many debounce callbacks a trace records. *)
Definition fired (tr : list Action) : nat := length (List.filter isFired tr).

(** What a check that is neither suppressed nor too short adds to the
    trace, newest first. *)
Definition checkActions (el : Node) (text : string) (up : nat) : list Action :=
  if String.length (Js.trim text) <? MIN_TEXT_LENGTH then []
  else [SendMessage text; IndicatorShown (nodeId el); RemoveIndicator up].

(** The texts of the requests a trace records, newest first. *)
Definition requests (tr : list Action) : list string :=
  omap (λ a, match a with SendMessage text => Some text | _ => None end) tr.

(** The rows the tooltip displays are the current changes, in order and
    indexed from zero. *)
Definition rowsInSync (w : World) : Prop :=
  ∀ c, currentCorrection w = Some c →
       ∃ tip, tooltipEl w = Some tip ∧ rows tip = imap mkRow (changes c).

(** What holds between two events besides [wellFormed]. *)
Definition tidy (w : World) : Prop :=
  length (timers w) ≤ 1 ∧ indicators w ≤ 1 ∧ rowsInSync w.


(** [h] is [n] or one of its ancestors. *)
Inductive ancestorOrSelf (h : Node) : Node → Prop :=
| aos_self : ancestorOrSelf h h
| aos_parent n p :
    parentElement n = Some p → ancestorOrSelf h p → ancestorOrSelf h n.

(** The [contenteditable] attribute as the host resolver reads it. *)
Definition editableAttr (n : Node) : string :=
  Js.toLowerCase (orEmpty (getAttribute n "contenteditable")).

(** The node is explicitly editable in the resolver's reading. *)
Definition declaredEditable (n : Node) : Prop :=
  editableAttr n ∈ ["true"; ""; "plaintext-only"].

(** The structural kinds the classifier accepts. *)
Definition proseKind (el : Node) : Prop :=
  tagName el = "TEXTAREA" ∨
  (tagName el = "INPUT" ∧
   has PROSE_INPUT_TYPES
     (Js.toLowerCase (if decide (type el = "") then "text" else type el)) = true) ∨
  (tagName el ≠ "TEXTAREA" ∧ tagName el ≠ "INPUT" ∧ isContentEditable el = true).

End Props.

(** ** Concrete pages and sessions used to exercise the model *)
Module Samples.
Import Dom Classifier Session Props.

Definition doc : Document := mkDocument (Some 0) (Some 1).

(** A form that forces checking, and inside it a disabled, read-only
    password field with spellcheck off. *)
Definition forcedForm : Node :=
  mkNode 2 "FORM" "" false false false {["data-correctly" := "true"]} None.

Definition passwordField : Node :=
  mkNode 3 "INPUT" "password" false true true
    {["aria-disabled" := "true"; "spellcheck" := "false"]} (Some forcedForm).

(** The document root carrying an override, and a text field right under it. *)
Definition rootElement : Node :=
  mkNode 0 "HTML" "" false false false {["data-correctly" := "false"]} None.

Definition fieldUnderRoot : Node :=
  mkNode 4 "TEXTAREA" "textarea" false false false ∅ (Some rootElement).

(** A plain multi-line text field. *)
Definition field : Node :=
  mkNode 5 "TEXTAREA" "textarea" false false false ∅ None.

(** A note about the shell, with a typo after a double dollar sign. *)
Definition shellNote : string := "use $$ to get teh PID".

Definition shellFix : Change :=
  mkChange "$$ to get teh" "$$ to get the" "Spelling: teh -> the".

Definition shellResult : CorrectionResult :=
  mkCorrection "use $$ to get the PID" [shellFix].

(** The user types the note, the debounce fires, and the check comes back
    with the fix: the tooltip is up. *)
Definition shellSession : World :=
  run doc [(0, Edit 5 shellNote); (0, Input field);
           (1800, Settled field (Success shellResult))] (init ∅).

(** The page once the user has typed a first word into the field. *)
Definition typed : World := dispatch doc (Edit 5 "hello") (init ∅).

(** The user dismissed the corrections of the note. *)
Definition dismissedSession : World := dispatch doc Dismiss shellSession.

(** The write of an accepted change is under way: the guard is up. *)
Definition writing : World := set_applyingCorrection true shellSession.

(** Typing in two bursts, a late change of the text without an input
    event, and then silence. *)
Definition typingSession : list (nat * Event) :=
  [(700, Edit 5 "hello world, this"); (700, Input field);
   (1000, Edit 5 "hello world, this is it")].

(** A text in which the typo occurs twice, and the session showing its fix. *)
Definition repeatedFix : Change := mkChange "teh" "the" "Spelling".

Definition repeatedResult : CorrectionResult :=
  mkCorrection "I saw the cat and the dog" [repeatedFix].

Definition repeatedSession : World :=
  run doc [(0, Edit 5 "I saw teh cat and teh dog"); (0, Input field);
           (1800, Settled field (Success repeatedResult))] (init ∅).

(** The same, after the user has fixed the text by hand in the meantime. *)
Definition staleSession : World :=
  dispatch doc (Edit 5 "I saw the cat") repeatedSession.

(** Settings as the popup saves them, and a provider call that answers
    with the fix of the note. *)
Definition savedSettings : Worker.Settings :=
  Worker.mkSettings (Some "openai") (Some "sk-test") None (Some true).

Definition answering (v : Provider.Value)
  : Provider.Instance → string → Provider.Upcall :=
  λ _ _, Provider.Delivered v.

(** A reply whose second change lacks its explanation. *)
Definition brokenReply : Provider.Value :=
  Provider.Object
    [("corrected", Provider.Text "the cat");
     ("changes",
      Provider.Array
        [Provider.encodeChange repeatedFix;
         Provider.Object [("original", Provider.Text "a");
                          ("replacement", Provider.Text "b")]])].

(** An editable region with a paragraph inside; the paragraph carries no
    [contenteditable] attribute of its own. *)
Definition editor : Node :=
  mkNode 7 "DIV" "" true false false {["contenteditable" := "true"]} None.

Definition paragraph : Node :=
  mkNode 8 "P" "" true false false ∅ (Some editor).

(** A span that opts out of editing inside the editor. *)
Definition lockedSpan : Node :=
  mkNode 9 "SPAN" "" false false false {["contenteditable" := "false"]}
    (Some editor).

(** A form that forces checking with an upper-case value. *)
Definition shoutingForm : Node :=
  mkNode 10 "FORM" "" false false false {["data-correctly" := "TRUE"]} None.

Definition cardField : Node :=
  mkNode 11 "INPUT" "tel" false false false
    {["autocomplete" := "cc-number"]} (Some shoutingForm).

(** A password field with no override around it. *)
Definition plainPassword : Node :=
  mkNode 12 "INPUT" "password" false false false ∅ None.

End Samples.

Import Dom Classifier Session Props.

(** ** The primitives on small inputs *)

Example replace_first_only :
  Js.replace "a teh b teh" "teh" "the" = "a the b teh".
Proof. reflexivity. Qed.

Example replace_absent : Js.replace "abc" "x" "y" = "abc".
Proof. reflexivity. Qed.

Example replace_empty_search : Js.replace "abc" "" "-" = "-abc".
Proof. reflexivity. Qed.

Example replace_patterns :
  Js.replace "a b c" "b" "[$&|$`|$'|$1|$$|$]" = "a [b|a | c|$1|$|$] c".
Proof. reflexivity. Qed.

Example trim_both_ends :
  Js.trim (String "009"%char "  hi there ") = "hi there".
Proof. reflexivity. Qed.

Example toLowerCase_ascii : Js.toLowerCase "TrUe-1" = "true-1".
Proof. reflexivity. Qed.

Example textarea_is_eligible :
  shouldCheckElement Samples.doc (Some Samples.field) = mkDecision true "eligible".
Proof. reflexivity. Qed.

Example typing_then_silence :
  trace (advance 5000
           (run Samples.doc Samples.typingSession
              (handleInput Samples.doc Samples.field Samples.typed)))
  = [SendMessage "hello world, this is it"; IndicatorShown 5; RemoveIndicator 0;
     DebounceComplete 5].
Proof. reflexivity. Qed.

(** ** Eligibility classifier *)

Lemma Node_parent_ind (P : Node → Prop) :
  (∀ n, parentElement n = None → P n) →
  (∀ n p, parentElement n = Some p → P p → P n) →
  ∀ n, P n.
Proof.
  intros Hroot Hstep. fix IH 1.
  intros [id tag ty ce dis ro attrs [p|]].
  - eapply Hstep; [reflexivity | apply IH].
  - apply Hroot. reflexivity.
Qed.

Lemma getInheritedAttr_unfold doc node attrName :
  getInheritedAttr doc node attrName =
  if isDocumentElement doc node then None
  else match getAttribute node attrName with
       | Some val => Some (Js.toLowerCase val)
       | None => match parentElement node with
                 | Some parent => getInheritedAttr doc parent attrName
                 | None => None
                 end
       end.
Proof. destruct node; reflexivity. Qed.

(** The loop of [getInheritedAttr] finds the nearest explicit value, in
    lower case. *)
Lemma getInheritedAttr_nearest doc attrName node val :
  nearestExplicit doc attrName node val →
  getInheritedAttr doc node attrName = Some (Js.toLowerCase val).
Proof.
  induction 1 as [node val Hroot Hattr | node parent val Hroot Hattr Hpar _ IH];
    rewrite getInheritedAttr_unfold, Hroot, Hattr; [reflexivity |].
  rewrite Hpar. exact IH.
Qed.

(** And it finds nothing else. *)
Lemma getInheritedAttr_found doc attrName node found :
  getInheritedAttr doc node attrName = Some found →
  ∃ val, nearestExplicit doc attrName node val ∧ found = Js.toLowerCase val.
Proof.
  revert found. induction node as [n Hpar | n p Hpar IH] using Node_parent_ind;
    intros found; rewrite getInheritedAttr_unfold;
    destruct (isDocumentElement doc n) eqn:Hroot; try discriminate;
    destruct (getAttribute n attrName) as [val|] eqn:Hattr.
  - intros [= <-]. exists val. split; [by apply nearest_here | done].
  - rewrite Hpar. discriminate.
  - intros [= <-]. exists val. split; [by apply nearest_here | done].
  - rewrite Hpar. intros Hfound. destruct (IH _ Hfound) as (val & Hnear & ->).
    exists val. split; [by eapply nearest_above | done].
Qed.

(** C2. Override dominance: whatever the element's kind, input type, flags
    and other attributes are, when the nearest explicitly-set value of
    [data-correctly], searched from the element upward (the search of the
    classifier, which stops in front of the document root), is "true" the
    classifier answers [check = true], and when it is "false" it answers
    [check = false]. *)
Theorem override_dominates doc (el : Node) override :
  nearestExplicit doc "data-correctly" el override →
  (override = "true" → check (shouldCheckElement doc (Some el)) = true) ∧
  (override = "false" → check (shouldCheckElement doc (Some el)) = false).
Proof.
  intros Hnear. apply getInheritedAttr_nearest in Hnear.
  split; intros ->; unfold shouldCheckElement; rewrite Hnear; reflexivity.
Qed.

Lemma override_dominates_witness :
  nearestExplicit Samples.doc "data-correctly" Samples.passwordField "true"
  ∧ check (shouldCheckElement Samples.doc (Some Samples.passwordField)) = true.
Proof.
  assert (H : nearestExplicit Samples.doc "data-correctly"
                Samples.passwordField "true").
  { eapply nearest_above; [reflexivity | reflexivity | reflexivity |].
    apply nearest_here; reflexivity. }
  split; [exact H |].
  apply (override_dominates _ _ _ H). reflexivity.
Defined.

(** The search does not look at the document root itself. *)
Remark override_on_root_is_not_searched :
  getInheritedAttr Samples.doc Samples.rootElement "data-correctly" = None ∧
  getInheritedAttr Samples.doc Samples.fieldUnderRoot "data-correctly" = None.
Proof. split; reflexivity. Qed.

(** ** Debounce/check state machine *)

Lemma handleInput_guarded doc raw w :
  applyingCorrection w = true → handleInput doc raw w = w.
Proof. intros H. unfold handleInput. by rewrite H. Qed.

Lemma setTextOnElement_guarded doc el text w :
  applyingCorrection w = true →
  setTextOnElement doc el text w =
  if isTextField el || isContentEditable el
  then emit (TextWritten (nodeId el) text)
         (set_textOf (<[nodeId el := text]> (textOf w)) w)
  else w.
Proof.
  intros H. unfold setTextOnElement.
  destruct (isTextField el || isContentEditable el); [|done].
  by apply handleInput_guarded.
Qed.

(** C5. Self-write suppression: an input event dispatched while the
    [applyingCorrection] guard is set leaves the whole state as it was; in
    particular the write of the Diff Applier, which dispatches such an event,
    does not re-arm the debounce timer and keeps [activeElement],
    [lastLoggedElement] and [dismissedElement]. *)
Theorem self_write_ignored doc (raw : Node) w :
  applyingCorrection w = true →
  handleInput doc raw w = w ∧
  ∀ el text, tracking (setTextOnElement doc el text w) = tracking w.
Proof.
  intros H. split; [by apply handleInput_guarded |].
  intros el text. rewrite setTextOnElement_guarded by done.
  by destruct (isTextField el || isContentEditable el).
Qed.

(** ** Tooltip placement *)

(** C8. For the anchor box (top 500, left 100, width 200, height 30), a
    tooltip of 300 by 150, a viewport of 800 by 600, no scroll, gap 8 and
    padding 10: the space below is 70, less than the 168 needed, the space
    above is 500, the bounds of the vertical clamp are 10 and 440, the
    placement is "above" and the final top is 342. *)
Theorem placement_above_342 :
  let anchor := Placement.mkRect 500 100 200 30 in
  let tip := Placement.mkRect 0 0 300 150 in
  let win := Placement.mkWindow 800 600 0 0 in
  let placed := Placement.positionTooltip anchor tip win in
  Placement.spaceBelow anchor win = 70%Q ∧
  Placement.spaceAbove anchor = 500%Q ∧
  (Placement.height tip + Placement.TOOLTIP_GAP + Placement.VIEWPORT_PADDING
   = 168)%Q ∧
  Placement.minTop win = 10%Q ∧
  Placement.maxTop tip win = 440%Q ∧
  Placement.placement placed = "above" ∧
  Placement.datasetPlacement placed = "above" ∧
  Placement.styleTop placed = 342%Q.
Proof. vm_compute. repeat split. Qed.

(** ** Diff applier *)

Lemma at_index_outOfRange {A} (l : list A) index :
  outOfRange index (length l) → at_index l index = None.
Proof.
  destruct index as [|z]; [done |]. simpl. intros Hz.
  destruct (0 <=? z)%Z eqn:Hle; [| done].
  apply Z.leb_le in Hle. destruct Hz as [Hz | Hz]; [lia |].
  rewrite lookup_ge_None_2; [done | lia].
Qed.

(** C10. Without an active element, without a current correction, or with
    an index that names no change, [acceptSingleCorrection] returns at once:
    the text, the change sequence and the tooltip are as before and nothing
    is written. *)
Theorem accept_one_noop doc index w :
  activeElement w = None ∨ currentCorrection w = None ∨
  (∃ c, currentCorrection w = Some c ∧ outOfRange index (length (changes c))) →
  acceptSingleCorrection doc index w = Returned w.
Proof.
  unfold acceptSingleCorrection. intros [H | [H | (c & H & Hout)]].
  - by rewrite H.
  - rewrite H. by destruct (activeElement w).
  - rewrite H. destruct (activeElement w); [| done].
    by rewrite (at_index_outOfRange _ _ Hout).
Qed.

Lemma guardedWrite_frame doc el text w :
  let w' := guardedWrite doc el text w in
  tracking w' = tracking w ∧
  currentCorrection w' = currentCorrection w ∧
  tooltipEl w' = tooltipEl w ∧
  indicators w' = indicators w ∧
  applyingCorrection w' = false.
Proof.
  unfold guardedWrite. rewrite setTextOnElement_guarded by done.
  by destruct (isTextField el || isContentEditable el).
Qed.

Lemma at_index_nat {A} (l : list A) (i : nat) :
  at_index l (Int (Z.of_nat i)) = (λ x, (i, x)) <$> l !! i.
Proof.
  simpl. destruct (0 <=? Z.of_nat i)%Z eqn:H; [| apply Z.leb_gt in H; lia].
  by rewrite Nat2Z.id.
Qed.

(** C9. Accepting one change at an existing index removes exactly that
    change: the sequence is one shorter and the others keep their order; when
    it was the last one the tooltip is hidden and the correction dropped. *)
Theorem accept_one_removes_one doc (i : nat) w el c tip :
  activeElement w = Some el →
  currentCorrection w = Some c →
  tooltipEl w = Some tip →
  i < length (changes c) →
  ∃ w', acceptSingleCorrection doc (Int (Z.of_nat i)) w = Returned w' ∧
    let remaining := delete i (changes c) in
    S (length remaining) = length (changes c) ∧
    (∀ j, remaining !! j = changes c !! (if decide (j < i) then j else S j)) ∧
    match remaining with
    | [] => currentCorrection w' = None ∧
            ∃ tip', tooltipEl w' = Some tip' ∧ visible tip' = false
    | _ :: _ => ∃ c' tip', currentCorrection w' = Some c' ∧ changes c' = remaining ∧
                  tooltipEl w' = Some tip' ∧ visible tip' = visible tip
    end.
Proof.
  intros Hel Hc Htip Hi.
  destruct (lookup_lt_is_Some_2 _ _ Hi) as [change Hchange].
  unfold acceptSingleCorrection.
  rewrite Hel, Hc, at_index_nat, Hchange. cbn [fmap option_fmap option_map].
  destruct (guardedWrite_frame doc el
              (Js.replace (getTextFromElement el w) (original change)
                 (replacement change)) w) as (_ & Hc1 & Htip1 & _ & _).
  revert Hc1 Htip1. generalize (guardedWrite doc el
              (Js.replace (getTextFromElement el w) (original change)
                 (replacement change)) w) as w1.
  intros w1 Hc1 Htip1. rewrite Hc1, Hc. simpl. rewrite Htip1, Htip.
  assert (Hlen : S (length (delete i (changes c))) = length (changes c)).
  { rewrite length_delete by (by eexists). lia. }
  assert (Hord : ∀ j, delete i (changes c) !! j
                      = changes c !! (if decide (j < i) then j else S j)).
  { intros j. case_decide.
    - by apply list_lookup_delete_lt.
    - apply list_lookup_delete_ge. lia. }
  destruct (delete i (changes c)) as [|c0 rest] eqn:Hrem.
  - eexists. split; [reflexivity |]. split; [done |]. split; [done |].
    unfold hideTooltip. simpl. destruct (visible tip) eqn:Hvis; simpl.
    + split; [done |]. eexists. split; [reflexivity | done].
    + split; [done |]. eexists. split; [reflexivity | done].
  - eexists. split; [reflexivity |]. split; [done |]. split; [done |].
    simpl. eexists _, _. repeat split; reflexivity.
Qed.

(** ** Correction orchestrator *)

Lemma checkGrammar_frame el w :
  let w' := checkGrammar el w in
  tracking w' = tracking w ∧ applyingCorrection w' = applyingCorrection w ∧
  currentCorrection w' = currentCorrection w ∧ tooltipEl w' = tooltipEl w ∧
  textOf w' = textOf w.
Proof.
  unfold checkGrammar. destruct (refIs _ _); [done |]. by destruct (_ <? _).
Qed.

Lemma hideTooltip_frame w :
  let w' := hideTooltip w in
  tracking w' = tracking w ∧ applyingCorrection w' = applyingCorrection w ∧
  currentCorrection w' = None ∧ textOf w' = textOf w ∧
  (is_Some (tooltipEl w) → is_Some (tooltipEl w')).
Proof.
  unfold hideTooltip. destruct (tooltipEl w) as [tip|] eqn:Htip; simpl.
  - destruct (visible tip); simpl; rewrite ?Htip; by repeat split.
  - rewrite Htip. by repeat split.
Qed.

Lemma getTextFromElement_textOf el w w' :
  textOf w' = textOf w → getTextFromElement el w' = getTextFromElement el w.
Proof. unfold getTextFromElement. by intros ->. Qed.

Lemma checkGrammar_suppressed el w :
  refIs (dismissedElement w) el = true → checkGrammar el w = w.
Proof. unfold checkGrammar. by intros ->. Qed.

Lemma checkGrammar_short el w :
  String.length (Js.trim (getTextFromElement el w)) < MIN_TEXT_LENGTH →
  checkGrammar el w = w.
Proof.
  unfold checkGrammar. intros H%Nat.ltb_lt. rewrite H.
  by destruct (refIs (dismissedElement w) el).
Qed.

Lemma checkGrammar_sends el w :
  refIs (dismissedElement w) el = false →
  MIN_TEXT_LENGTH ≤ String.length (Js.trim (getTextFromElement el w)) →
  checkGrammar el w =
  emit (SendMessage (getTextFromElement el w)) (showIndicator el w).
Proof.
  unfold checkGrammar. intros -> H.
  destruct (_ <? _) eqn:Hlt; [apply Nat.ltb_lt in Hlt; lia | done].
Qed.

(** C6. A check that shows the indicator has exactly one indicator up, and
    however its request settles (a result with changes, a result without, an
    unsuccessful response or a rejected request) the rest of the check calls
    [removeIndicator] exactly once and leaves no indicator. *)
Theorem indicator_removed_once (element : Node) w :
  refIs (dismissedElement w) element = false →
  MIN_TEXT_LENGTH ≤ String.length (Js.trim (getTextFromElement element w)) →
  indicators (checkGrammar element w) = 1 ∧
  ∀ response w2,
    let w3 := checkGrammarSettled element response w2 in
    indicators w3 = 0 ∧
    match response with
    | Success _ => trace w3 = RemoveIndicator (indicators w2) :: trace w2
    | Failure error =>
        trace w3 = ErrorLogged error :: RemoveIndicator (indicators w2) :: trace w2
    | Rejected message =>
        trace w3 = ErrorLogged message :: RemoveIndicator (indicators w2) :: trace w2
    end.
Proof.
  intros Hdis Hlen. rewrite checkGrammar_sends by done. split; [reflexivity |].
  intros [data | error | message] w2; simpl; try done.
  destruct (changes data); [done |].
  unfold showTooltip, createTooltip. simpl. by destruct (tooltipEl w2).
Qed.

(** C7. Text shorter than the threshold after trimming: the debounce
    callback and the focus-out handler send nothing, show nothing and log no
    error. *)
Theorem short_text_skipped doc (el : Node) w :
  String.length (Js.trim (getTextFromElement el w)) < MIN_TEXT_LENGTH →
  debounceCallback el w
    = emit (DebounceComplete (nodeId el)) (set_debounceTimer None w) ∧
  ∀ raw related,
    resolveEditableHost doc (Some raw) = Some el →
    let w' := handleFocusOut doc raw related w in
    trace w' = trace w ∧ indicators w' = indicators w ∧
    tooltipEl w' = tooltipEl w ∧ textOf w' = textOf w.
Proof.
  intros Hshort. split.
  - unfold debounceCallback. apply checkGrammar_short.
    by rewrite (getTextFromElement_textOf el w).
  - intros raw related Hres. unfold handleFocusOut. rewrite Hres.
    destruct (bool_decide _ && related); [done |].
    destruct (negb _); [done |].
    set (w1 := match debounceTimer w with Some _ => _ | None => _ end).
    assert (Htext : textOf w1 = textOf w) by (subst w1; by destruct (debounceTimer w)).
    rewrite (getTextFromElement_textOf el w w1 Htext).
    apply Nat.ltb_lt in Hshort. rewrite Hshort.
    subst w1. by destruct (debounceTimer w).
Qed.

Lemma refIs_same el : refIs (Some el) el = true.
Proof. unfold refIs, sameNode. by apply bool_decide_eq_true_2. Qed.

Lemma dismiss_marks_active el w :
  activeElement w = Some el → refIs (dismissedElement (dismiss w)) el = true.
Proof.
  intros Hel.
  assert (Hd : dismissedElement (dismiss w) = Some el).
  { unfold dismiss, hideTooltip. simpl. rewrite Hel.
    destruct (tooltipEl w) as [tip|]; [| done]. by destruct (visible tip). }
  rewrite Hd. apply refIs_same.
Qed.

(** C4. Dismissing puts the marker on the active element.  While the marker
    is on an element, a check of that element sends nothing, from the debounce
    callback and from focus-out alike; the next qualifying input on the
    element clears the marker and, in the same call, arms the debounce
    timer. *)
Theorem dismiss_then_edit doc (el : Node) w :
  refIs (dismissedElement w) el = true →
  (∀ w0, activeElement w0 = Some el →
         refIs (dismissedElement (dismiss w0)) el = true) ∧
  checkGrammar el w = w ∧
  trace (debounceCallback el w) = DebounceComplete (nodeId el) :: trace w ∧
  (∀ raw related,
     resolveEditableHost doc (Some raw) = Some el →
     trace (handleFocusOut doc raw related w) = trace w) ∧
  (∀ raw,
     applyingCorrection w = false →
     resolveEditableHost doc (Some raw) = Some el →
     check (shouldCheckElement doc (Some el)) = true →
     let w' := handleInput doc raw w in
     dismissedElement w' = None ∧
     activeElement w' = Some el ∧
     debounceTimer w' = Some (nextTimerId w) ∧
     mkTimer (nextTimerId w) (now w + DEBOUNCE_MS) el ∈ timers w').
Proof.
  intros Hdis. split; [intros w0; apply dismiss_marks_active |].
  split; [by apply checkGrammar_suppressed |]. split; [| split].
  - unfold debounceCallback. by rewrite checkGrammar_suppressed.
  - intros raw related Hres. unfold handleFocusOut. rewrite Hres.
    destruct (bool_decide _ && related); [done |].
    destruct (negb _); [done |].
    set (w1 := match debounceTimer w with Some _ => _ | None => _ end).
    assert (H1 : trace w1 = trace w ∧ dismissedElement w1 = dismissedElement w)
      by (subst w1; by destruct (debounceTimer w)).
    destruct H1 as [Htr Hd].
    destruct (_ <? _); [done |].
    rewrite checkGrammar_suppressed; [done | simpl; by rewrite Hd].
  - intros raw Hguard Hres Hcheck. unfold handleInput.
    rewrite Hguard, Hres, Hcheck. simpl.
    destruct (negb (refIs (lastLoggedElement w) el)); simpl; rewrite Hdis; simpl;
      destruct (debounceTimer w); simpl;
      (repeat split; apply elem_of_app; right; apply list_elem_of_singleton; reflexivity).
Qed.

(** ** String replacement *)

Lemma append_String a s t : String a s +:+ t = String a (s +:+ t).
Proof. reflexivity. Qed.

Lemma startsWith_app p s :
  Js.startsWith p s = true → s = p +:+ Js.substringFrom (String.length p) s.
Proof.
  revert s. induction p as [|a p IH]; intros s; [by destruct s |].
  destruct s as [|b s]; [done |]. simpl.
  destruct (decide (a = b)) as [->|]; [| done].
  intros H. rewrite append_String. f_equal. by apply IH.
Qed.

Lemma StringIndexOf_unfold s search :
  Js.StringIndexOf s search =
  if Js.startsWith search s then Some 0
  else match s with
       | "" => None
       | String _ s' => S <$> Js.StringIndexOf s' search
       end.
Proof. by destruct s. Qed.

(** StringIndexOf returns an occurrence, and no occurrence starts before it. *)
Lemma StringIndexOf_first s search position :
  Js.StringIndexOf s search = Some position →
  s = Js.substringTo position s +:+ search
        +:+ Js.substringFrom (position + String.length search) s ∧
  ∀ earlier, earlier < position →
    Js.startsWith search (Js.substringFrom earlier s) = false.
Proof.
  revert position. induction s as [|c s IH]; intros position;
    rewrite StringIndexOf_unfold;
    destruct (Js.startsWith search _) eqn:Hpre.
  - intros [= <-]. split; [by apply startsWith_app | lia].
  - done.
  - intros [= <-]. split; [by apply startsWith_app | lia].
  - destruct (Js.StringIndexOf s search) as [n|] eqn:Hidx; [| done].
    intros [= <-]. destruct (IH n eq_refl) as [Heq Hmin]. split.
    + simpl. rewrite append_String. by rewrite <- Heq.
    + intros [|earlier] Hlt; [done |]. simpl. apply Hmin. lia.
Qed.

(** When StringIndexOf finds nothing, the search string occurs nowhere. *)
Lemma StringIndexOf_absent s search :
  Js.StringIndexOf s search = None →
  ∀ at_, Js.startsWith search (Js.substringFrom at_ s) = false.
Proof.
  induction s as [|c s IH]; rewrite StringIndexOf_unfold;
    destruct (Js.startsWith search _) eqn:Hpre; try done.
  - intros _ [|n]; done.
  - destruct (Js.StringIndexOf s search) eqn:Hidx; [done |].
    intros _ [|n]; [done |]. simpl. by apply IH.
Qed.

(** A replacement text without a dollar sign is inserted as it is. *)
Lemma GetSubstitution_plain matched str position template :
  Js.hasDollar template = false →
  Js.GetSubstitution matched str position template = template.
Proof.
  induction template as [|c rest IH]; [done |]. simpl.
  destruct (decide (c = Js.dollar)); [done |]. intros H. by rewrite IH.
Qed.

Lemma replace_plain text search replaceValue :
  Js.hasDollar replaceValue = false →
  Js.replace text search replaceValue =
  match Js.StringIndexOf text search with
  | Some position =>
      Js.substringTo position text +:+ replaceValue
        +:+ Js.substringFrom (position + String.length search) text
  | None => text
  end.
Proof.
  intros H. unfold Js.replace.
  destruct (Js.StringIndexOf text search); [| done].
  by rewrite GetSubstitution_plain.
Qed.

(** What the accept paths write is what [replace] computes. *)
Lemma accept_one_text doc (i : nat) w el c change :
  activeElement w = Some el →
  currentCorrection w = Some c →
  changes c !! i = Some change →
  isTextField el || isContentEditable el = true →
  textOf (world_of (acceptSingleCorrection doc (Int (Z.of_nat i)) w)) !! nodeId el
  = Some (Js.replace (getTextFromElement el w) (original change) (replacement change)).
Proof.
  intros Hel Hc Hchange Hwr. unfold acceptSingleCorrection.
  rewrite Hel, Hc, at_index_nat, Hchange. cbn [fmap option_fmap option_map].
  set (text := Js.replace _ _ _).
  assert (Htext : textOf (guardedWrite doc el text w) !! nodeId el = Some text).
  { unfold guardedWrite. rewrite setTextOnElement_guarded, Hwr by done.
    simpl. apply lookup_insert_eq. }
  destruct (guardedWrite_frame doc el text w) as (_ & Hc1 & _).
  revert Htext Hc1. generalize (guardedWrite doc el text w) as w1.
  intros w1 Htext Hc1. rewrite Hc1, Hc. simpl.
  destruct (tooltipEl w1) as [tip|]; [| done].
  destruct (delete i (changes c)); simpl; [| done].
  unfold hideTooltip. simpl. by destruct (visible tip).
Qed.


(** C1, where the script departs from it.  The note reads "use $$ to get
    teh PID" and the accepted change replaces "$$ to get teh" by
    "$$ to get the".  Both accept paths write "use $ to get the PID": the
    replacement text went through the dollar patterns of [replace] and lost a
    dollar sign, so it is not in the result character for character. *)
Theorem accept_expands_dollar_patterns :
  let w := Samples.shellSession in
  activeElement w = Some Samples.field ∧
  currentCorrection w = Some Samples.shellResult ∧
  getTextFromElement Samples.field w = "use $$ to get teh PID" ∧
  getTextFromElement Samples.field
    (world_of (acceptSingleCorrection Samples.doc (Int 0) w))
    = "use $ to get the PID" ∧
  getTextFromElement Samples.field (acceptCorrections Samples.doc w)
    = "use $ to get the PID".
Proof. vm_compute. repeat split. Qed.

(** ** Debounce coalescing *)

Lemma timersTracked_cleared w :
  timersTracked w →
  match debounceTimer w with
  | Some id => filter (λ t, timerId t ≠ id) (timers w)
  | None => timers w
  end = [].
Proof.
  unfold timersTracked. destruct (debounceTimer w) as [id|].
  - generalize (timers w). intros tms. induction tms as [|tm tms IH]; intros Htr; [done |].
    rewrite filter_cons. case_decide as Hne.
    + specialize (Htr tm (list_elem_of_here _ _)). by simplify_eq.
    + apply IH. intros tm' Hin. apply Htr. by apply list_elem_of_further.
  - destruct (timers w) as [|tm tms]; [done |]. intros Htr.
    by specialize (Htr tm (list_elem_of_here _ _)).
Qed.

(** A qualifying input arms one timer, due a quiet period later, and
    nothing else is pending. *)
Lemma handleInput_arms doc raw el w :
  applyingCorrection w = false →
  timersTracked w →
  qualifies doc raw el →
  let w' := handleInput doc raw w in
  armedFor el (now w) w' ∧ now w' = now w ∧ trace w' = trace w ∧
  textOf w' = textOf w ∧ indicators w' = indicators w.
Proof.
  intros Hguard Htr [Hres Hcheck]. unfold handleInput.
  rewrite Hguard, Hres, Hcheck. simpl.
  pose proof (timersTracked_cleared w Htr) as Hclr.
  assert (Hdis : ∀ d, refIs (if refIs d el then None else d) el = false).
  { intros d. by destruct (refIs d el) eqn:E. }
  unfold armedFor.
  destruct (negb (refIs (lastLoggedElement w) el)); simpl;
    (destruct (refIs (dismissedElement w) el) eqn:Hd; simpl;
     destruct (debounceTimer w) as [id|]; simpl in *; rewrite Hclr;
     (split; [split; [done | split; [done | by eexists]] | done])).
Qed.

Lemma armedFor_tracked el latest w : armedFor el latest w → timersTracked w.
Proof.
  intros (_ & _ & id & Hd & Ht) tm. rewrite Ht, Hd.
  by intros ->%list_elem_of_singleton.
Qed.

(** Before the deadline, letting time pass only moves the clock. *)
Lemma advance_early el latest w t :
  armedFor el latest w → t < latest + DEBOUNCE_MS →
  advance t w = set_now (Nat.max (now w) t) w.
Proof.
  intros (_ & _ & id & _ & Ht) Hlt. unfold advance. rewrite Ht. simpl.
  rewrite Ht. simpl. unfold isDue. simpl.
  rewrite bool_decide_eq_false_2 by (unfold DEBOUNCE_MS in *; lia). done.
Qed.

(** At the deadline the one pending callback runs, and it reads the text
    the element has then. *)
Lemma advance_fires el latest w horizon :
  armedFor el latest w → latest + DEBOUNCE_MS ≤ horizon →
  let w' := advance horizon w in
  trace w' = (checkActions el (getTextFromElement el w) (indicators w)
                ++ DebounceComplete (nodeId el) :: trace w)%list ∧
  timers w' = [] ∧ debounceTimer w' = None.
Proof.
  intros (_ & Hdis & id & _ & Ht) Hle. unfold advance. rewrite Ht. simpl.
  rewrite Ht. simpl. unfold isDue. simpl.
  rewrite bool_decide_eq_true_2 by (unfold DEBOUNCE_MS in *; lia).
  rewrite filter_cons. simpl. rewrite decide_False by (intros H; by apply H).
  rewrite filter_nil. unfold debounceCallback, checkGrammar, checkActions. simpl.
  rewrite Hdis.
  replace (getTextFromElement el _) with (getTextFromElement el w)
    by (symmetry; by apply getTextFromElement_textOf).
  by destruct (_ <? _).
Qed.

(** During a burst nothing fires; the timer follows the latest input. *)
Lemma burst_run doc el timeline : ∀ w previous latest,
  armedFor el latest w → now w = previous →
  burst doc el previous latest timeline →
  let w' := run doc timeline w in
  armedFor el (latestInput latest timeline) w' ∧ trace w' = trace w ∧
  textOf w' = edited timeline (textOf w) ∧ indicators w' = indicators w.
Proof.
  induction timeline as [|[t ev] rest IH]; intros w previous latest Harm Hnow;
    [done |].
  intros (Hprev & Hlt & Hev). cbv zeta. cbn [run latestInput edited].
  rewrite (advance_early el latest w t Harm Hlt).
  set (w1 := set_now (Nat.max (now w) t) w).
  assert (Harm1 : armedFor el latest w1) by exact Harm.
  assert (Hnow1 : now w1 = t) by (simpl; lia).
  assert (Hsame : trace w1 = trace w ∧ textOf w1 = textOf w ∧
                  indicators w1 = indicators w) by done.
  destruct Hsame as (Htr1 & Htx1 & Hin1).
  clearbody w1.
  destruct ev as [raw | | target text | | | | | |]; try done.
  - destruct Hev as [Hq Hrest]. cbn [dispatch].
    pose proof Harm1 as (Hguard & _).
    destruct (handleInput_arms doc raw el w1 Hguard
                (armedFor_tracked el latest w1 Harm1) Hq)
      as (Harm2 & Hnow2 & Htr2 & Htx2 & Hin2).
    rewrite Hnow1 in Harm2, Hnow2.
    destruct (IH _ t t Harm2 Hnow2 Hrest) as (Ha & Hb & Hc & Hd').
    split; [exact Ha |]. rewrite Hb, Hc, Hd', Htr2, Htx2, Hin2, Htr1, Htx1, Hin1. done.
  - cbn [dispatch]. set (w2 := set_textOf (<[target:=text]> (textOf w1)) w1).
    assert (Harm2 : armedFor el latest w2) by exact Harm1.
    assert (Hnow2 : now w2 = t) by exact Hnow1.
    destruct (IH w2 t latest Harm2 Hnow2 Hev) as (Ha & Hb & Hc & Hd').
    split; [exact Ha |]. rewrite Hb, Hc, Hd'. simpl. rewrite Htr1, Htx1, Hin1. done.
Qed.

(** C3. Debounce coalescing: after an input and any further qualifying
    inputs on the same element, each less than the quiet period after the one
    before, exactly one debounce callback runs, at the end of the period that
    follows the last input; its check reads the text the element has at that
    moment, changes made after the last input included. *)
Theorem debounce_coalesces doc (el raw : Node) w timeline horizon :
  applyingCorrection w = false →
  timersTracked w →
  qualifies doc raw el →
  burst doc el (now w) (now w) timeline →
  latestInput (now w) timeline + DEBOUNCE_MS ≤ horizon →
  let armed := run doc timeline (handleInput doc raw w) in
  let final := advance horizon armed in
  let text := getTextFromElement el armed in
  armedFor el (latestInput (now w) timeline) armed ∧
  trace armed = trace w ∧
  textOf armed = edited timeline (textOf w) ∧
  trace final = (checkActions el text (indicators w)
                   ++ DebounceComplete (nodeId el) :: trace w)%list ∧
  fired (trace final) = S (fired (trace w)) ∧
  timers final = [] ∧ debounceTimer final = None.
Proof.
  intros Hguard Htr Hq Hburst Hhor.
  destruct (handleInput_arms doc raw el w Hguard Htr Hq)
    as (Harm & Hnow & Htrace & Htext & Hind).
  destruct (burst_run doc el timeline _ _ _ Harm Hnow Hburst)
    as (Harm' & Htrace' & Htext' & Hind').
  destruct (advance_fires el _ _ horizon Harm' Hhor) as (Hfinal & Htm & Hd).
  cbv zeta. rewrite Hfinal, Htrace', Htrace, Htext', Htext, Hind', Hind.
  split; [exact Harm' |]. do 3 (split; [done |]). split; [| done].
  unfold fired, checkActions. rewrite List.filter_app, length_app.
  by destruct (_ <? _).
Qed.

(** ** Invariants of the event loop *)

Lemma wellFormed_same w w' :
  tracking w' = tracking w →
  applyingCorrection w' = applyingCorrection w →
  (is_Some (currentCorrection w') → is_Some (tooltipEl w')) →
  wellFormed w → wellFormed w'.
Proof.
  unfold wellFormed, timersTracked, tracking. intros [= Hd Ht _ _ _] Ha Hc (? & ? & ?).
  rewrite Hd, Ht, Ha. done.
Qed.

Lemma hideTooltip_wellFormed w : wellFormed w → wellFormed (hideTooltip w).
Proof.
  destruct (hideTooltip_frame w) as (Htr & Ha & Hc & _ & _).
  apply wellFormed_same; [done | done |]. rewrite Hc. by intros [? ?].
Qed.

Lemma checkGrammar_wellFormed el w : wellFormed w → wellFormed (checkGrammar el w).
Proof.
  destruct (checkGrammar_frame el w) as (Htr & Ha & Hc & Htip & _).
  intros Hwf. eapply wellFormed_same; [done | done | | done].
  rewrite Hc, Htip. apply Hwf.
Qed.

Lemma debounceCallback_timers el w : timers (debounceCallback el w) = timers w.
Proof.
  unfold debounceCallback.
  destruct (checkGrammar_frame el
              (emit (DebounceComplete (nodeId el)) (set_debounceTimer None w)))
    as ([= _ Ht _ _ _] & _). exact Ht.
Qed.

(** The fuel of [fireDue] is enough: once time has passed until [t], no
    pending timer is due by [t]. *)
Lemma fireDue_settles t : ∀ fuel w,
  length (timers w) ≤ fuel →
  List.find (isDue t) (timers (fireDue fuel t w)) = None.
Proof.
  induction fuel as [|fuel IH]; intros w Hlen.
  - simpl. destruct (timers w); [done | simpl in Hlen; lia].
  - simpl. destruct (List.find (isDue t) (timers w)) as [tm|] eqn:Hfind; [| done].
    apply IH. rewrite debounceCallback_timers. simpl.
    apply List.find_some in Hfind as [Hin _]. apply list_elem_of_In in Hin.
    pose proof (length_filter_lt (λ x, timerId x ≠ timerId tm) (timers w) tm Hin)
      as Hlt.
    assert (length (filter (λ x, timerId x ≠ timerId tm) (timers w))
            < length (timers w)) by (apply Hlt; by intros H).
    lia.
Qed.

Lemma advance_settles t w : List.find (isDue t) (timers (advance t w)) = None.
Proof. unfold advance. simpl. by apply fireDue_settles. Qed.

Lemma fireDue_wellFormed t : ∀ fuel w, wellFormed w → wellFormed (fireDue fuel t w).
Proof.
  induction fuel as [|fuel IH]; intros w Hwf; [done |]. simpl.
  destruct (List.find (isDue t) (timers w)) as [tm|] eqn:Hfind; [| done].
  apply IH. unfold debounceCallback. apply checkGrammar_wellFormed.
  destruct Hwf as (Ha & Htr & Hc). split; [done |]. split; [| done].
  intros tm' Hin. simpl in Hin. apply list_elem_of_filter in Hin as [Hne Hin].
  apply List.find_some in Hfind as [Hin0 _]. apply list_elem_of_In in Hin0.
  apply Htr in Hin. apply Htr in Hin0. congruence.
Qed.

Lemma advance_wellFormed t w : wellFormed w → wellFormed (advance t w).
Proof.
  intros Hwf. unfold advance.
  eapply wellFormed_same; [| | | by apply (fireDue_wellFormed t (length (timers w)))];
    try done.
  apply (fireDue_wellFormed t (length (timers w)) w Hwf).
Qed.

Lemma handleInput_wellFormed doc raw w :
  wellFormed w → wellFormed (handleInput doc raw w).
Proof.
  intros Hwf. pose proof Hwf as (Ha & Htr & Hc). unfold handleInput. rewrite Ha.
  destruct (negb (check _)); [done |].
  destruct (resolveEditableHost doc (Some raw)) as [el|]; [| done].
  pose proof (timersTracked_cleared w Htr) as Hclr.
  destruct (negb (refIs (lastLoggedElement w) el)); simpl;
    (destruct (refIs (dismissedElement w) el); simpl;
     destruct (debounceTimer w) as [id|]; simpl in *;
     (split; [done | split; [| done]]);
     intros tm; simpl; rewrite Hclr; simpl;
     by intros ->%list_elem_of_singleton).
Qed.

Lemma handleFocusOut_wellFormed doc raw related w :
  wellFormed w → wellFormed (handleFocusOut doc raw related w).
Proof.
  intros Hwf. pose proof Hwf as (Ha & Htr & Hc). unfold handleFocusOut.
  destruct (bool_decide _ && related); [done |].
  destruct (negb (check _)); [done |].
  destruct (resolveEditableHost doc (Some raw)) as [el|]; [| done].
  pose proof (timersTracked_cleared w Htr) as Hclr.
  set (w1 := match debounceTimer w with Some _ => _ | None => _ end).
  assert (Hwf1 : wellFormed w1).
  { subst w1. destruct (debounceTimer w) as [id|]; [| done].
    split; [done |]. split; [| done]. intros tm. simpl. rewrite Hclr.
    by intros ?%elem_of_nil. }
  clearbody w1. destruct (_ <? _); [done |].
  apply checkGrammar_wellFormed. exact Hwf1.
Qed.

Lemma checkGrammarSettled_wellFormed el response w :
  wellFormed w → wellFormed (checkGrammarSettled el response w).
Proof.
  intros (Ha & Htr & Hc). destruct response as [data | error | message]; simpl;
    try done.
  destruct (changes data); [done |]. unfold showTooltip, createTooltip. simpl.
  destruct (tooltipEl w); by repeat split.
Qed.

Lemma guardedWrite_wellFormed doc el text w :
  wellFormed w → wellFormed (guardedWrite doc el text w).
Proof.
  destruct (guardedWrite_frame doc el text w) as (Htr & Hc & Htip & _ & Ha).
  intros Hwf. pose proof Hwf as (Ha0 & _ & Hc0).
  eapply wellFormed_same; [done | congruence | | done].
  by rewrite Hc, Htip.
Qed.

(** Between two events [acceptSingleCorrection] always returns. *)
Lemma acceptSingleCorrection_returns doc index w :
  wellFormed w →
  ∃ w', acceptSingleCorrection doc index w = Returned w' ∧ wellFormed w'.
Proof.
  intros Hwf. unfold acceptSingleCorrection.
  destruct (activeElement w) as [el|]; [| by eexists].
  destruct (currentCorrection w) as [c|] eqn:Hc; [| by eexists].
  destruct (at_index (changes c) index) as [[i change]|]; [| by eexists].
  set (text := Js.replace _ _ _).
  pose proof (guardedWrite_wellFormed doc el text w Hwf) as Hwf1.
  destruct (guardedWrite_frame doc el text w) as (_ & Hc1 & _).
  revert Hwf1 Hc1. generalize (guardedWrite doc el text w) as w1.
  intros w1 Hwf1 Hc1. rewrite Hc1, Hc. simpl.
  pose proof Hwf1 as (Ha1 & Htr1 & Htip1).
  destruct (Htip1 ltac:(rewrite Hc1, Hc; by eexists)) as [tip Htip].
  rewrite Htip.
  destruct (delete i (changes c)) as [|c0 rest]; eexists; (split; [reflexivity |]).
  - apply hideTooltip_wellFormed. by repeat split.
  - by repeat split.
Qed.

Lemma acceptCorrections_wellFormed doc w :
  wellFormed w → wellFormed (acceptCorrections doc w).
Proof.
  intros Hwf. unfold acceptCorrections. apply hideTooltip_wellFormed.
  destruct (activeElement w) as [el|]; [| done].
  destruct (currentCorrection w) as [c|]; [| done].
  destruct (changes c); [done |]. by apply guardedWrite_wellFormed.
Qed.

Lemma dispatch_wellFormed doc ev w : wellFormed w → wellFormed (dispatch doc ev w).
Proof.
  intros Hwf. destruct ev; simpl.
  - by apply handleInput_wellFormed.
  - by apply handleFocusOut_wellFormed.
  - done.
  - by apply checkGrammarSettled_wellFormed.
  - destruct (acceptSingleCorrection_returns doc index w Hwf) as (w' & -> & Hwf').
    exact Hwf'.
  - by apply acceptCorrections_wellFormed.
  - apply hideTooltip_wellFormed. exact Hwf.
  - by apply hideTooltip_wellFormed.
  - unfold documentClick. destruct (tooltipEl w) as [tip|]; [| done].
    destruct (_ && _); [by apply hideTooltip_wellFormed | done].
Qed.

(** Every world the event loop reaches from the initial one is well formed. *)
Lemma run_wellFormed doc timeline : ∀ w,
  wellFormed w → wellFormed (run doc timeline w).
Proof.
  induction timeline as [|[t ev] rest IH]; intros w Hwf; [done |].
  simpl. apply IH, dispatch_wellFormed, advance_wellFormed, Hwf.
Qed.

Lemma init_wellFormed page : wellFormed (init page).
Proof.
  split; [done |]. split; [| by intros [? ?]]. intros tm Hin. inversion Hin.
Qed.

(** ** The properties at work on the sample sessions *)

Lemma debounce_coalesces_witness :
  let armed := run Samples.doc Samples.typingSession
                 (handleInput Samples.doc Samples.field Samples.typed) in
  trace (advance 5000 armed)
  = [SendMessage "hello world, this is it"; IndicatorShown 5; RemoveIndicator 0;
     DebounceComplete 5].
Proof.
  refine (proj1 (proj2 (proj2 (proj2
    (debounce_coalesces Samples.doc Samples.field Samples.field Samples.typed
       Samples.typingSession 5000 _ _ _ _ _))))).
  - reflexivity.
  - intros tm Hin. inversion Hin.
  - split; reflexivity.
  - cbn [burst Samples.typingSession]. unfold DEBOUNCE_MS, qualifies.
    repeat split; simpl; lia.
  - unfold DEBOUNCE_MS. simpl. lia.
Defined.

Lemma dismiss_then_edit_witness :
  refIs (dismissedElement Samples.dismissedSession) Samples.field = true ∧
  checkGrammar Samples.field Samples.dismissedSession = Samples.dismissedSession ∧
  dismissedElement (handleInput Samples.doc Samples.field Samples.dismissedSession)
  = None.
Proof.
  split; [reflexivity |].
  pose proof (dismiss_then_edit Samples.doc Samples.field Samples.dismissedSession
                eq_refl) as (_ & Hcheck & _ & _ & Hinput).
  split; [exact Hcheck |].
  exact (proj1 (Hinput Samples.field eq_refl eq_refl eq_refl)).
Defined.

Lemma self_write_ignored_witness :
  applyingCorrection Samples.writing = true ∧
  handleInput Samples.doc Samples.field Samples.writing = Samples.writing.
Proof.
  split; [reflexivity |].
  exact (proj1 (self_write_ignored Samples.doc Samples.field Samples.writing eq_refl)).
Defined.

Lemma indicator_removed_once_witness :
  indicators (checkGrammar Samples.field (dispatch Samples.doc
                (Edit 5 Samples.shellNote) (init ∅))) = 1.
Proof.
  refine (proj1 (indicator_removed_once Samples.field
                   (dispatch Samples.doc (Edit 5 Samples.shellNote) (init ∅)) _ _)).
  - reflexivity.
  - vm_compute. lia.
Defined.

Lemma short_text_skipped_witness :
  debounceCallback Samples.field Samples.typed
  = emit (DebounceComplete 5) (set_debounceTimer None Samples.typed).
Proof.
  refine (proj1 (short_text_skipped Samples.doc Samples.field Samples.typed _)).
  vm_compute. lia.
Defined.

Lemma accept_one_removes_one_witness :
  ∃ w', acceptSingleCorrection Samples.doc (Int 0) Samples.shellSession = Returned w' ∧
        currentCorrection w' = None.
Proof.
  destruct (accept_one_removes_one Samples.doc 0 Samples.shellSession
              Samples.field Samples.shellResult
              (mkTooltip true true [mkRow 0 Samples.shellFix])
              eq_refl eq_refl eq_refl) as (w' & Hret & _ & _ & Hlast).
  - simpl. lia.
  - exists w'. split; [exact Hret | exact (proj1 Hlast)].
Defined.

Lemma accept_one_noop_witness :
  acceptSingleCorrection Samples.doc (Int 3) Samples.shellSession
  = Returned Samples.shellSession.
Proof.
  apply (accept_one_noop Samples.doc (Int 3) Samples.shellSession).
  right. right. exists Samples.shellResult. split; [reflexivity |].
  simpl. lia.
Defined.

(** * Further properties of the content script *)

(** ** Classifier: what is rejected and what acceptance requires *)

Lemma append_not_empty a s t : String a s +:+ t ≠ "".
Proof. rewrite append_String. discriminate. Qed.

Lemma prose_not_excluded t :
  has PROSE_INPUT_TYPES t = true → has EXCLUDED_INPUT_TYPES t = false.
Proof.
  unfold has. intros H%bool_decide_eq_true_1.
  apply elem_of_list_to_set in H.
  repeat (apply elem_of_cons in H as [-> | H]; [by vm_compute |]).
  by apply elem_of_nil in H.
Qed.

Lemma resolveEditableHost_field doc el :
  isTextField el = true → resolveEditableHost doc (Some el) = Some el.
Proof. unfold resolveEditableHost, isTextField. by intros ->. Qed.

(** An input of an excluded type is never checked unless an override forces
    it: the classifier rejects it and neither typing in it nor leaving it
    changes anything, so its text is never sent. *)
Theorem excluded_input_never_processed doc (el : Node) w related :
  tagName el = "INPUT" →
  has EXCLUDED_INPUT_TYPES (Js.toLowerCase (type el)) = true →
  getInheritedAttr doc el "data-correctly" ≠ Some "true" →
  check (shouldCheckElement doc (Some el)) = false ∧
  handleInput doc el w = w ∧
  handleFocusOut doc el related w = w.
Proof.
  intros Htag Hex Hforce.
  assert (Hcheck : check (shouldCheckElement doc (Some el)) = false).
  { unfold shouldCheckElement.
    destruct (decide (_ = Some "false")); [done |].
    destruct (decide (_ = Some "true")); [done |].
    unfold structuralEligibility. rewrite Htag. simpl.
    destruct (decide (type el = "")) as [He | _].
    { rewrite He in Hex. by vm_compute in Hex. }
    destruct (has PROSE_INPUT_TYPES _) eqn:Hprose.
    { apply prose_not_excluded in Hprose. congruence. }
    by rewrite Hex. }
  assert (Hres : resolveEditableHost doc (Some el) = Some el).
  { apply resolveEditableHost_field. unfold isTextField.
    apply bool_decide_eq_true_2. by left. }
  split; [exact Hcheck |]. split.
  - unfold handleInput. rewrite Hres, Hcheck. by destruct (applyingCorrection w).
  - unfold handleFocusOut. rewrite Hres, Hcheck. by destruct (_ && _).
Qed.

Lemma excluded_input_never_processed_witness :
  handleInput Samples.doc Samples.plainPassword Samples.shellSession
  = Samples.shellSession.
Proof.
  refine (proj1 (proj2 (excluded_input_never_processed Samples.doc
            Samples.plainPassword Samples.shellSession false _ _ _))).
  - reflexivity.
  - reflexivity.
  - discriminate.
Defined.

(** Unless an override forces it, a positive decision means: the element is
    a prose kind, it is neither disabled nor read-only (natively or through
    ARIA), spellcheck is not switched off on it or above it, and its input
    mode, autocomplete hint and role are not excluded ones. *)
Theorem unforced_check_requirements doc (el : Node) :
  check (shouldCheckElement doc (Some el)) = true →
  getInheritedAttr doc el "data-correctly" ≠ Some "true" →
  proseKind el ∧
  disabled el = false ∧ readOnly el = false ∧
  getAttribute el "aria-disabled" ≠ Some "true" ∧
  getAttribute el "aria-readonly" ≠ Some "true" ∧
  getInheritedAttr doc el "spellcheck" ≠ Some "false" ∧
  has EXCLUDED_INPUTMODES (Js.toLowerCase (orEmpty (getAttribute el "inputmode"))) = false ∧
  has EXCLUDED_AUTOCOMPLETE (Js.toLowerCase (orEmpty (getAttribute el "autocomplete"))) = false ∧
  has EXCLUDED_ROLES (Js.toLowerCase (orEmpty (getAttribute el "role"))) = false.
Proof.
  unfold shouldCheckElement. intros Hcheck Hforce.
  destruct (decide (_ = Some "false")); [done |].
  destruct (decide (_ = Some "true")); [done |].
  assert (Hkind : proseKind el ∧ check (attributeRules doc el) = true).
  { revert Hcheck. unfold structuralEligibility, proseKind.
    destruct (decide (tagName el = "TEXTAREA")) as [Hta | Hta]; [by auto |].
    destruct (decide (tagName el = "INPUT")) as [Hin | Hin].
    - destruct (has PROSE_INPUT_TYPES _) eqn:Hprose; [by auto |].
      by destruct (has EXCLUDED_INPUT_TYPES _).
    - destruct (isContentEditable el) eqn:Hce; [by auto 6 | done]. }
  destruct Hkind as [Hkind Hrules]. split; [exact Hkind |].
  revert Hrules. unfold attributeRules.
  destruct (disabled el); [done |].
  destruct (readOnly el); [done |].
  destruct (decide (getAttribute el "aria-disabled" = Some "true")); [done |].
  destruct (decide (getAttribute el "aria-readonly" = Some "true")); [done |].
  destruct (decide (getInheritedAttr doc el "spellcheck" = Some "false")); [done |].
  destruct (has EXCLUDED_INPUTMODES _); [done |].
  destruct (has EXCLUDED_AUTOCOMPLETE _); [done |].
  destruct (has EXCLUDED_ROLES _); [done |].
  done.
Qed.

Lemma unforced_check_requirements_witness :
  disabled Samples.field = false ∧ readOnly Samples.field = false.
Proof.
  pose proof (unforced_check_requirements Samples.doc Samples.field eq_refl)
    as H.
  destruct H as (_ & Hd & Hr & _); [discriminate |].
  exact (conj Hd Hr).
Defined.

(** The override is compared in lower case: "TRUE" forces a check and
    "False" forbids it like their lower-case spellings. *)
Theorem override_ignores_case doc (el : Node) override :
  nearestExplicit doc "data-correctly" el override →
  (Js.toLowerCase override = "true" →
   check (shouldCheckElement doc (Some el)) = true) ∧
  (Js.toLowerCase override = "false" →
   check (shouldCheckElement doc (Some el)) = false).
Proof.
  intros Hnear. apply getInheritedAttr_nearest in Hnear.
  split; intros Hlow; unfold shouldCheckElement; rewrite Hnear, Hlow; reflexivity.
Qed.

Lemma override_ignores_case_witness :
  check (shouldCheckElement Samples.doc (Some Samples.cardField)) = true.
Proof.
  refine (proj1 (override_ignores_case Samples.doc Samples.cardField "TRUE" _) _).
  - eapply nearest_above; [reflexivity | reflexivity | reflexivity |].
    apply nearest_here; reflexivity.
  - reflexivity.
Defined.

(** Every decision carries a reason, the positive ones included. *)
Theorem reason_is_populated doc (el : option Node) :
  reason (shouldCheckElement doc el) ≠ "".
Proof.
  destruct el as [el|]; [| done]. unfold shouldCheckElement.
  destruct (decide (_ = Some "false")); [apply append_not_empty |].
  destruct (decide (_ = Some "true")); [apply append_not_empty |].
  unfold structuralEligibility.
  assert (Hrules : reason (attributeRules doc el) ≠ "").
  { unfold attributeRules.
    repeat (match goal with
            | |- context [if ?c then _ else _] => destruct c
            end; try done; try apply append_not_empty). }
  destruct (decide (tagName el = "TEXTAREA")); [exact Hrules |].
  destruct (decide (tagName el = "INPUT")).
  - destruct (has PROSE_INPUT_TYPES _); [exact Hrules |].
    destruct (has EXCLUDED_INPUT_TYPES _); [apply append_not_empty | done].
  - destruct (isContentEditable el); [exact Hrules | done].
Qed.

(** ** Host resolver *)

Lemma findEditableHost_unfold doc node :
  findEditableHost doc node =
  if isBody doc node || isDocumentElement doc node then None
  else if bool_decide (declaredEditable node) then Some node
       else match parentElement node with
            | Some parent => findEditableHost doc parent
            | None => None
            end.
Proof. destruct node; reflexivity. Qed.

(** What the loop of the resolver finds is the node or an ancestor, is
    neither the body nor the document root, and is declared editable. *)
Lemma findEditableHost_found doc node host :
  findEditableHost doc node = Some host →
  ancestorOrSelf host node ∧
  isBody doc host = false ∧ isDocumentElement doc host = false ∧
  declaredEditable host.
Proof.
  induction node as [n Hpar | n p Hpar IH] using Node_parent_ind;
    rewrite findEditableHost_unfold;
    destruct (isBody doc n || isDocumentElement doc n) eqn:Hedge; try done;
    apply orb_false_iff in Hedge as [Hb Hr];
    destruct (bool_decide (declaredEditable n)) eqn:Hdecl.
  - intros [= <-]. apply bool_decide_eq_true_1 in Hdecl.
    split; [constructor | done].
  - by rewrite Hpar.
  - intros [= <-]. apply bool_decide_eq_true_1 in Hdecl.
    split; [constructor | done].
  - rewrite Hpar. intros Hfound. destruct (IH Hfound) as (Hanc & Hrest).
    split; [by eapply aos_parent | done].
Qed.

Lemma findEditableHost_self doc host :
  isBody doc host = false → isDocumentElement doc host = false →
  declaredEditable host →
  findEditableHost doc host = Some host.
Proof.
  intros Hb Hr Hdecl. rewrite findEditableHost_unfold, Hb, Hr. simpl.
  by rewrite bool_decide_eq_true_2.
Qed.

Lemma resolveEditableHost_cases doc (el : Node) :
  resolveEditableHost doc (Some el) = Some el ∨
  ∃ host, resolveEditableHost doc (Some el) = Some host ∧
          isTextField el = false ∧ ancestorOrSelf host el ∧
          isBody doc host = false ∧ isDocumentElement doc host = false ∧
          declaredEditable host.
Proof.
  unfold resolveEditableHost, isTextField.
  destruct (bool_decide (tagName el = "INPUT" ∨ tagName el = "TEXTAREA"));
    [by left |].
  destruct (findEditableHost doc el) as [found|] eqn:Hfind; simpl; [| by left].
  right. exists found. split; [done |]. split; [done |].
  by apply findEditableHost_found.
Qed.

Lemma resolveEditableHost_declared doc (host : Node) :
  isBody doc host = false → isDocumentElement doc host = false →
  declaredEditable host →
  resolveEditableHost doc (Some host) = Some host.
Proof.
  intros Hb Hr Hdecl. unfold resolveEditableHost.
  destruct (bool_decide (tagName host = "INPUT" ∨ _)); [done |].
  by rewrite (findEditableHost_self doc host Hb Hr Hdecl).
Qed.

(** Resolving a host twice gives what resolving once gives. *)
Theorem resolveEditableHost_idempotent doc (el : option Node) :
  resolveEditableHost doc (resolveEditableHost doc el)
  = resolveEditableHost doc el.
Proof.
  destruct el as [el|]; [| done].
  destruct (resolveEditableHost_cases doc el)
    as [Hself | (host & Hres & _ & _ & Hb & Hr & Hdecl)].
  - by rewrite !Hself.
  - rewrite Hres. by apply resolveEditableHost_declared.
Qed.

(** The resolved host is the event's node itself, or else an ancestor of it
    that is declared editable and is neither the body nor the document root;
    a text field always resolves to itself. *)
Theorem resolveEditableHost_self_or_ancestor doc (el host : Node) :
  resolveEditableHost doc (Some el) = Some host →
  host = el ∨
  (isTextField el = false ∧ ancestorOrSelf host el ∧
   isBody doc host = false ∧ isDocumentElement doc host = false ∧
   declaredEditable host).
Proof.
  intros Hres.
  destruct (resolveEditableHost_cases doc el) as [Hself | (h & Hh & Hrest)].
  - left. congruence.
  - right. assert (h = host) as -> by congruence. exact Hrest.
Qed.

Lemma resolveEditableHost_self_or_ancestor_witness :
  Samples.editor = Samples.lockedSpan ∨
  (isTextField Samples.lockedSpan = false ∧
   ancestorOrSelf Samples.editor Samples.lockedSpan ∧
   isBody Samples.doc Samples.editor = false ∧
   isDocumentElement Samples.doc Samples.editor = false ∧
   declaredEditable Samples.editor).
Proof.
  apply (resolveEditableHost_self_or_ancestor Samples.doc Samples.lockedSpan
           Samples.editor).
  reflexivity.
Defined.

(** A node other than a text field, the body and the document root that has
    no [contenteditable] attribute of its own resolves to itself, whatever its
    ancestors declare: the missing attribute reads as the empty string. *)
Theorem node_without_attribute_is_its_own_host doc (el : Node) :
  isBody doc el = false → isDocumentElement doc el = false →
  getAttribute el "contenteditable" = None →
  resolveEditableHost doc (Some el) = Some el.
Proof.
  intros Hb Hr Hattr. apply resolveEditableHost_declared; [done | done |].
  unfold declaredEditable, editableAttr. rewrite Hattr. simpl.
  apply list_elem_of_further, list_elem_of_here.
Qed.

Lemma node_without_attribute_is_its_own_host_witness :
  resolveEditableHost Samples.doc (Some Samples.paragraph)
  = Some Samples.paragraph.
Proof.
  apply (node_without_attribute_is_its_own_host Samples.doc Samples.paragraph);
    reflexivity.
Defined.

(** ** Tooltip rows *)

Lemma shown_imap (g : nat → nat) (l : list Change) :
  shown <$> imap (λ j, mkRow (g j)) l = l.
Proof.
  revert g. induction l as [|c l IH]; intros g; [done |].
  simpl. f_equal. apply (IH (g ∘ S)).
Qed.

Lemma removeRow_imap (l : list Change) : ∀ k i,
  i < length l →
  shown <$> removeRow (k + i) (imap (λ j, mkRow (k + j)) l) = delete i l.
Proof.
  induction l as [|c l IH]; intros k i Hi; [simpl in Hi; lia |].
  cbn [imap removeRow dataIndex]. destruct i as [|i].
  - rewrite decide_True by lia. simpl.
    apply (shown_imap (λ j, k + S j)).
  - rewrite decide_False by (simpl; lia). simpl. f_equal.
    replace (k + S i) with (S k + i) by lia.
    rewrite <- (IH (S k) i) by (simpl in Hi; lia).
    f_equal. f_equal. apply imap_ext. intros j x _. simpl. f_equal. lia.
Qed.

Lemma reindexRows_shown rs : reindexRows rs = imap mkRow (shown <$> rs).
Proof. unfold reindexRows. by rewrite imap_fmap. Qed.

(** Removing the row of an accepted change and renumbering the others
    leaves the rows of the remaining changes. *)
Lemma rows_after_accept (l : list Change) i :
  i < length l →
  reindexRows (removeRow i (imap mkRow l)) = imap mkRow (delete i l).
Proof.
  intros Hi. rewrite reindexRows_shown. f_equal.
  apply (removeRow_imap l 0 i Hi).
Qed.

(** ** What each handler leaves alone *)

Lemma handleInput_frame doc raw w :
  let w' := handleInput doc raw w in
  currentCorrection w' = currentCorrection w ∧ tooltipEl w' = tooltipEl w ∧
  textOf w' = textOf w ∧ indicators w' = indicators w ∧ trace w' = trace w ∧
  applyingCorrection w' = applyingCorrection w.
Proof.
  unfold handleInput. destruct (applyingCorrection w) eqn:Ha; [done |].
  destruct (negb (check _)); [done |].
  destruct (resolveEditableHost doc (Some raw)) as [el|]; [| done].
  destruct (negb (refIs (lastLoggedElement w) el)); simpl;
    (destruct (refIs (dismissedElement w) el); simpl;
     destruct (debounceTimer w); done).
Qed.

Lemma handleInput_timers doc raw w :
  wellFormed w →
  timers (handleInput doc raw w) = timers w ∨
  length (timers (handleInput doc raw w)) = 1.
Proof.
  intros (Ha & Htr & _). unfold handleInput. rewrite Ha.
  destruct (negb (check _)); [by left |].
  destruct (resolveEditableHost doc (Some raw)) as [el|]; [| by left].
  pose proof (timersTracked_cleared w Htr) as Hclr. right.
  destruct (negb (refIs (lastLoggedElement w) el)); simpl;
    (destruct (refIs (dismissedElement w) el); simpl;
     destruct (debounceTimer w) as [id|]; simpl in *; by rewrite Hclr).
Qed.

Lemma checkGrammar_indicators el w :
  indicators (checkGrammar el w) = indicators w ∨
  indicators (checkGrammar el w) = 1.
Proof.
  unfold checkGrammar. destruct (refIs _ _); [by left |].
  destruct (_ <? _); [by left | by right].
Qed.

Lemma handleFocusOut_frame doc raw related w :
  let w' := handleFocusOut doc raw related w in
  currentCorrection w' = currentCorrection w ∧ tooltipEl w' = tooltipEl w ∧
  textOf w' = textOf w ∧ applyingCorrection w' = applyingCorrection w ∧
  (indicators w' = indicators w ∨ indicators w' = 1).
Proof.
  unfold handleFocusOut.
  destruct (bool_decide _ && related); [by auto 10 |].
  destruct (negb (check _)); [by auto 10 |].
  destruct (resolveEditableHost doc (Some raw)) as [el|]; [| by auto 10].
  set (w1 := match debounceTimer w with Some _ => _ | None => _ end).
  assert (H1 : currentCorrection w1 = currentCorrection w ∧
               tooltipEl w1 = tooltipEl w ∧ textOf w1 = textOf w ∧
               applyingCorrection w1 = applyingCorrection w ∧
               indicators w1 = indicators w)
    by (subst w1; by destruct (debounceTimer w)).
  clearbody w1. destruct H1 as (Hc & Ht & Hx & Ha & Hi).
  destruct (_ <? _); [by auto 10 |].
  destruct (checkGrammar_frame el (set_activeElement (Some el) w1))
    as (_ & Ha' & Hc' & Ht' & Hx').
  rewrite Hc', Ht', Hx', Ha'. simpl. repeat split; try done.
  destruct (checkGrammar_indicators el (set_activeElement (Some el) w1)) as [H | H];
    [left; by rewrite H | by right].
Qed.

Lemma handleFocusOut_timers doc raw related w :
  wellFormed w →
  timers (handleFocusOut doc raw related w) = timers w ∨
  timers (handleFocusOut doc raw related w) = [].
Proof.
  intros (Ha & Htr & _). unfold handleFocusOut.
  destruct (bool_decide _ && related); [by left |].
  destruct (negb (check _)); [by left |].
  destruct (resolveEditableHost doc (Some raw)) as [el|]; [| by left].
  pose proof (timersTracked_cleared w Htr) as Hclr.
  set (w1 := match debounceTimer w with Some _ => _ | None => _ end).
  assert (H1 : timers w1 = timers w ∨ timers w1 = []).
  { subst w1. destruct (debounceTimer w); [right; exact Hclr | by left]. }
  clearbody w1. destruct (_ <? _); [exact H1 |].
  destruct (checkGrammar_frame el (set_activeElement (Some el) w1))
    as ([= _ Ht _ _ _] & _).
  by rewrite Ht.
Qed.

(** ** Invariants kept by every event *)

Lemma rowsInSync_same w w' :
  currentCorrection w' = currentCorrection w → tooltipEl w' = tooltipEl w →
  rowsInSync w → rowsInSync w'.
Proof. unfold rowsInSync. by intros -> ->. Qed.

Lemma rowsInSync_none w : currentCorrection w = None → rowsInSync w.
Proof. unfold rowsInSync. by intros ->. Qed.

Lemma at_index_lookup {A} (l : list A) index i x :
  at_index l index = Some (i, x) → l !! i = Some x.
Proof.
  destruct index as [|z]; [done |]. simpl.
  destruct (0 <=? z)%Z; [| done].
  destruct (l !! Z.to_nat z) eqn:H; simpl; [| done]. by intros [= <- <-].
Qed.

Lemma tracking_timers w w' : tracking w' = tracking w → timers w' = timers w.
Proof. unfold tracking. intros [= _ H _ _ _]. exact H. Qed.

Lemma hideTooltip_tidy w : length (timers w) ≤ 1 → tidy (hideTooltip w).
Proof.
  intros Ht.
  destruct (hideTooltip_frame w) as (Htr & _ & Hc & _).
  apply tracking_timers in Htr.
  split; [by rewrite Htr |]. split; [| by apply rowsInSync_none].
  unfold hideTooltip. simpl. lia.
Qed.

Lemma checkGrammar_tidy el w : tidy w → tidy (checkGrammar el w).
Proof.
  intros (Ht & Hi & Hr).
  destruct (checkGrammar_frame el w) as (Htm & _ & Hc & Htip & _).
  apply tracking_timers in Htm.
  split; [by rewrite Htm |]. split.
  - destruct (checkGrammar_indicators el w) as [-> | ->]; lia.
  - by apply (rowsInSync_same w).
Qed.

Lemma fireDue_tidy t : ∀ fuel w, tidy w → tidy (fireDue fuel t w).
Proof.
  induction fuel as [|fuel IH]; intros w Htidy; [done |]. simpl.
  destruct (List.find (isDue t) (timers w)) as [tm|]; [| done].
  apply IH. unfold debounceCallback. apply checkGrammar_tidy.
  destruct Htidy as (Ht & Hi & Hr). split; [| by split].
  simpl. pose proof (length_filter (λ x, timerId x ≠ timerId tm) (timers w)). lia.
Qed.

Lemma advance_tidy t w : tidy w → tidy (advance t w).
Proof.
  intros Htidy. unfold advance.
  exact (fireDue_tidy t (length (timers w)) w Htidy).
Qed.

Lemma handleInput_tidy doc raw w :
  wellFormed w → tidy w → tidy (handleInput doc raw w).
Proof.
  intros Hwf (Ht & Hi & Hr).
  destruct (handleInput_frame doc raw w) as (Hc & Htip & _ & Hind & _).
  split; [| split].
  - destruct (handleInput_timers doc raw w Hwf) as [-> | ->]; lia.
  - by rewrite Hind.
  - by apply (rowsInSync_same w).
Qed.

Lemma handleFocusOut_tidy doc raw related w :
  wellFormed w → tidy w → tidy (handleFocusOut doc raw related w).
Proof.
  intros Hwf (Ht & Hi & Hr).
  destruct (handleFocusOut_frame doc raw related w) as (Hc & Htip & _ & _ & Hind).
  split; [| split].
  - destruct (handleFocusOut_timers doc raw related w Hwf) as [-> | ->];
      [done | simpl; lia].
  - destruct Hind as [-> | ->]; lia.
  - by apply (rowsInSync_same w).
Qed.

Lemma checkGrammarSettled_tidy el response w :
  tidy w → tidy (checkGrammarSettled el response w).
Proof.
  intros (Ht & Hi & Hr).
  destruct response as [data | error | message]; simpl.
  - destruct (changes data) as [|c0 cs] eqn:Hcs.
    + split; [done |]. split; [simpl; lia | done].
    + unfold showTooltip, createTooltip. simpl.
      destruct (tooltipEl w) as [tip|]; simpl; rewrite Hcs; simpl;
        (split; [done |]; split; [simpl; lia |]);
        intros c [= <-]; (eexists; split; [reflexivity |]); simpl;
        by rewrite Hcs.
  - split; [done |]. split; [simpl; lia | done].
  - split; [done |]. split; [simpl; lia | done].
Qed.

Lemma guardedWrite_tidy doc el text w : tidy w → tidy (guardedWrite doc el text w).
Proof.
  intros (Ht & Hi & Hr).
  destruct (guardedWrite_frame doc el text w) as (Htm & Hc & Htip & Hind & _).
  apply tracking_timers in Htm.
  split; [by rewrite Htm |]. split; [by rewrite Hind |].
  by apply (rowsInSync_same w).
Qed.

(** Between two events [acceptSingleCorrection] returns, and what holds
    between events holds after it. *)
Lemma acceptSingleCorrection_good doc index w :
  wellFormed w → tidy w →
  ∃ w', acceptSingleCorrection doc index w = Returned w' ∧
        wellFormed w' ∧ tidy w'.
Proof.
  intros Hwf Htidy. unfold acceptSingleCorrection.
  destruct (activeElement w) as [el|]; [| by eexists].
  destruct (currentCorrection w) as [c|] eqn:Hc; [| by eexists].
  destruct (at_index (changes c) index) as [[i change]|] eqn:Hat; [| by eexists].
  apply at_index_lookup in Hat. apply lookup_lt_Some in Hat.
  set (text := Js.replace _ _ _).
  pose proof (guardedWrite_wellFormed doc el text w Hwf) as Hwf1.
  pose proof (guardedWrite_tidy doc el text w Htidy) as Htidy1.
  destruct (guardedWrite_frame doc el text w) as (_ & Hc1 & _).
  revert Hwf1 Htidy1 Hc1. generalize (guardedWrite doc el text w) as w1.
  intros w1 Hwf1 Htidy1 Hc1. rewrite Hc1, Hc. simpl.
  pose proof Hwf1 as (Ha1 & Htr1 & _).
  pose proof Htidy1 as (Ht1 & Hi1 & Hr1).
  destruct (Hr1 c ltac:(by rewrite Hc1)) as (tip & Htip & Hrows).
  rewrite Htip.
  destruct (delete i (changes c)) as [|c0 rest] eqn:Hdel;
    eexists; (split; [reflexivity |]).
  - split.
    + apply hideTooltip_wellFormed. by repeat split.
    + by apply hideTooltip_tidy.
  - split; [by repeat split |]. split; [done |]. split; [done |].
    intros c' [= <-]. eexists. split; [reflexivity |]. simpl.
    rewrite Hrows, rows_after_accept by done. by rewrite Hdel.
Qed.

Lemma acceptCorrections_tidy doc w : tidy w → tidy (acceptCorrections doc w).
Proof.
  intros Htidy. unfold acceptCorrections. apply hideTooltip_tidy.
  destruct (activeElement w) as [el|]; [| apply Htidy].
  destruct (currentCorrection w) as [c|]; [| apply Htidy].
  destruct (changes c); [apply Htidy |]. by apply guardedWrite_tidy.
Qed.

Lemma dispatch_good doc ev w :
  wellFormed w → tidy w →
  wellFormed (dispatch doc ev w) ∧ tidy (dispatch doc ev w).
Proof.
  intros Hwf Htidy. split; [by apply dispatch_wellFormed |].
  destruct ev; simpl.
  - by apply handleInput_tidy.
  - by apply handleFocusOut_tidy.
  - exact Htidy.
  - by apply checkGrammarSettled_tidy.
  - destruct (acceptSingleCorrection_good doc index w Hwf Htidy)
      as (w' & -> & _ & Htidy'). exact Htidy'.
  - by apply acceptCorrections_tidy.
  - apply hideTooltip_tidy. apply Htidy.
  - apply hideTooltip_tidy. apply Htidy.
  - unfold documentClick. destruct (tooltipEl w) as [tip|]; [| done].
    destruct (_ && _); [apply hideTooltip_tidy; apply Htidy | done].
Qed.

Lemma run_good doc timeline : ∀ w,
  wellFormed w → tidy w →
  wellFormed (run doc timeline w) ∧ tidy (run doc timeline w).
Proof.
  induction timeline as [|[t ev] rest IH]; intros w Hwf Htidy; [done |].
  simpl.
  destruct (dispatch_good doc ev (advance t w)
              (advance_wellFormed t w Hwf) (advance_tidy t w Htidy)) as [H1 H2].
  by apply IH.
Qed.

Lemma init_tidy page : tidy (init page).
Proof. split; [simpl; lia |]. split; [simpl; lia |]. by apply rowsInSync_none. Qed.

(** ** What holds in every state the event loop reaches *)

(** At most one debounce timer is pending, it is the one [debounceTimer]
    holds, and the re-entrancy guard is down between events. *)
Theorem one_tracked_timer_between_events doc page timeline :
  let w := run doc timeline (init page) in
  length (timers w) ≤ 1 ∧ timersTracked w ∧ applyingCorrection w = false.
Proof.
  destruct (run_good doc timeline (init page) (init_wellFormed page)
              (init_tidy page)) as ((Ha & Htr & _) & (Ht & _)).
  done.
Qed.

(** There is never more than one "checking" indicator on the page. *)
Theorem at_most_one_indicator doc page timeline :
  indicators (run doc timeline (init page)) ≤ 1.
Proof.
  destruct (run_good doc timeline (init page) (init_wellFormed page)
              (init_tidy page)) as (_ & (_ & Hi & _)).
  exact Hi.
Qed.

(** Whenever there is a current correction, the tooltip exists and its rows
    are exactly the remaining changes, in order, with [data-index] counting
    from zero: the accept button of row [j] accepts change [j]. *)
Theorem rows_follow_changes doc page timeline c :
  let w := run doc timeline (init page) in
  currentCorrection w = Some c →
  ∃ tip, tooltipEl w = Some tip ∧
         rows tip = imap mkRow (changes c) ∧
         ∀ j change, changes c !! j = Some change →
                     rows tip !! j = Some (mkRow j change).
Proof.
  destruct (run_good doc timeline (init page) (init_wellFormed page)
              (init_tidy page)) as (_ & (_ & _ & Hr)).
  intros w Hc. destruct (Hr c Hc) as (tip & Htip & Hrows).
  exists tip. split; [done |]. split; [done |].
  intros j change Hj. by rewrite Hrows, list_lookup_imap, Hj.
Qed.

Lemma rows_follow_changes_witness :
  ∃ tip, tooltipEl Samples.shellSession = Some tip ∧
         rows tip = imap mkRow (changes Samples.shellResult).
Proof.
  unfold Samples.shellSession.
  pose proof (rows_follow_changes Samples.doc ∅
                [(0, Edit 5 Samples.shellNote); (0, Input Samples.field);
                 (1800, Settled Samples.field (Success Samples.shellResult))]
                Samples.shellResult) as H.
  cbv zeta in H. destruct H as (tip & Htip & Hrows & _).
  - vm_compute. reflexivity.
  - exists tip. exact (conj Htip Hrows).
Defined.

(** In a state the event loop reaches, [acceptSingleCorrection] returns
    whatever index it is given: the tooltip it reads is always there. *)
Theorem accept_one_never_throws doc page timeline index :
  ∃ w', acceptSingleCorrection doc index (run doc timeline (init page))
        = Returned w'.
Proof.
  destruct (run_good doc timeline (init page) (init_wellFormed page)
              (init_tidy page)) as (Hwf & Htidy).
  destruct (acceptSingleCorrection_good doc index _ Hwf Htidy) as (w' & Hret & _).
  by exists w'.
Qed.

(** ** Reading and writing an element's text *)



(** An element that is neither a text field nor editable is not written
    to: nothing on the page changes and no input event is dispatched. *)
Theorem write_to_non_editable_is_dropped doc (el : Node) text w :
  isTextField el || isContentEditable el = false →
  setTextOnElement doc el text w = w ∧
  textOf (guardedWrite doc el text w) = textOf w ∧
  trace (guardedWrite doc el text w) = trace w.
Proof.
  intros Hwr. unfold guardedWrite, setTextOnElement. by rewrite Hwr.
Qed.

Lemma write_to_non_editable_is_dropped_witness :
  setTextOnElement Samples.doc Samples.forcedForm "x" Samples.typed
  = Samples.typed.
Proof.
  refine (proj1 (write_to_non_editable_is_dropped Samples.doc
                   Samples.forcedForm "x" Samples.typed _)).
  reflexivity.
Defined.

(** ** Accepting corrections *)

Lemma hideTooltip_trace w :
  trace (hideTooltip w) = RemoveIndicator (indicators w) :: trace w.
Proof.
  unfold hideTooltip. destruct (tooltipEl w) as [tip|]; [| done].
  by destruct (visible tip).
Qed.

Lemma guardedWrite_requests doc el text w :
  requests (trace (guardedWrite doc el text w)) = requests (trace w) ∧
  (applyingCorrection w = false → applyingCorrection (guardedWrite doc el text w) = false).
Proof.
  unfold guardedWrite. rewrite setTextOnElement_guarded by done.
  by destruct (isTextField el || isContentEditable el).
Qed.

(** Neither accept path re-arms the debounce timer, changes the tracked
    elements or sends a request, and the guard it raises is down again when it
    is done. *)
Theorem accept_paths_start_no_check doc index w :
  let one := world_of (acceptSingleCorrection doc index w) in
  let all := acceptCorrections doc w in
  tracking one = tracking w ∧ tracking all = tracking w ∧
  requests (trace one) = requests (trace w) ∧
  requests (trace all) = requests (trace w) ∧
  (applyingCorrection w = false →
   applyingCorrection one = false ∧ applyingCorrection all = false).
Proof.
  cbv zeta.
  assert (Hone : tracking (world_of (acceptSingleCorrection doc index w)) = tracking w ∧
                 requests (trace (world_of (acceptSingleCorrection doc index w)))
                 = requests (trace w) ∧
                 (applyingCorrection w = false →
                  applyingCorrection (world_of (acceptSingleCorrection doc index w))
                  = false)).
  { unfold acceptSingleCorrection.
    destruct (activeElement w) as [el|]; [| done].
    destruct (currentCorrection w) as [c|]; [| done].
    destruct (at_index (changes c) index) as [[i change]|]; [| done].
    set (text := Js.replace _ _ _).
    destruct (guardedWrite_frame doc el text w) as (Htr & _ & _ & _ & Ha).
    destruct (guardedWrite_requests doc el text w) as (Hreq & _).
    revert Htr Ha Hreq. generalize (guardedWrite doc el text w) as w1.
    intros w1 Htr Ha Hreq.
    destruct (currentCorrection w1) as [c1|]; [| done]. simpl.
    destruct (tooltipEl w1) as [tip|]; [| done].
    destruct (delete i (changes c1)); simpl; [| done].
    unfold hideTooltip. simpl. by destruct (visible tip). }
  assert (Hall : tracking (acceptCorrections doc w) = tracking w ∧
                 requests (trace (acceptCorrections doc w)) = requests (trace w) ∧
                 (applyingCorrection w = false →
                  applyingCorrection (acceptCorrections doc w) = false)).
  { unfold acceptCorrections.
    set (w1 := match activeElement w with Some _ => _ | None => _ end).
    assert (H1 : tracking w1 = tracking w ∧
                 requests (trace w1) = requests (trace w) ∧
                 (applyingCorrection w = false → applyingCorrection w1 = false)).
    { subst w1. destruct (activeElement w) as [el|]; [| done].
      destruct (currentCorrection w) as [c|]; [| done].
      destruct (changes c) as [|c0 cs]; [done |].
      destruct (guardedWrite_frame doc el
                  (foldl applyChange (getTextFromElement el w) (c0 :: cs)) w)
        as (Htr & _).
      destruct (guardedWrite_requests doc el
                  (foldl applyChange (getTextFromElement el w) (c0 :: cs)) w)
        as (Hreq & Ha).
      done. }
    clearbody w1. destruct H1 as (Htr & Hreq & Ha).
    destruct (hideTooltip_frame w1) as (Htr' & Ha' & _).
    rewrite Htr', Ha', hideTooltip_trace. simpl. done. }
  destruct Hone as (H1 & H2 & H3). destruct Hall as (H4 & H5 & H6).
  repeat split; auto.
Qed.

(** Accept All always ends with the tooltip hidden, the current correction
    dropped and no indicator, with or without anything to apply; the rows the
    tooltip held are kept as they were. *)
Theorem accept_all_always_closes doc w :
  let w' := acceptCorrections doc w in
  currentCorrection w' = None ∧ indicators w' = 0 ∧
  match tooltipEl w with
  | Some tip => tooltipEl w' = Some (mkTooltip false (acceptDisplayed tip) (rows tip))
  | None => tooltipEl w' = None
  end.
Proof.
  cbv zeta. unfold acceptCorrections.
  set (w1 := match activeElement w with Some _ => _ | None => _ end).
  assert (H1 : tooltipEl w1 = tooltipEl w).
  { subst w1. destruct (activeElement w) as [el|]; [| done].
    destruct (currentCorrection w) as [c|]; [| done].
    destruct (changes c) as [|c0 cs]; [done |].
    by destruct (guardedWrite_frame doc el
                   (foldl applyChange (getTextFromElement el w) (c0 :: cs)) w)
      as (_ & _ & Htip & _). }
  clearbody w1. unfold hideTooltip. rewrite <- H1.
  destruct (tooltipEl w1) as [[[|] acc rs]|] eqn:Htip; simpl; by rewrite ?Htip.
Qed.








(** With a replacement that holds no dollar sign, accepting one change
    rewrites exactly the first occurrence of its original: the element gets
    the text before that occurrence, the replacement as written, and the text
    after it; no occurrence starts earlier. *)
Theorem accept_one_replaces_first_occurrence doc (i : nat) w el c change position :
  activeElement w = Some el → currentCorrection w = Some c →
  changes c !! i = Some change →
  isTextField el || isContentEditable el = true →
  Js.hasDollar (replacement change) = false →
  Js.StringIndexOf (getTextFromElement el w) (original change) = Some position →
  let text := getTextFromElement el w in
  let before := Js.substringTo position text in
  let after := Js.substringFrom (position + String.length (original change)) text in
  text = before +:+ original change +:+ after ∧
  (∀ earlier, earlier < position →
     Js.startsWith (original change) (Js.substringFrom earlier text) = false) ∧
  textOf (world_of (acceptSingleCorrection doc (Int (Z.of_nat i)) w)) !! nodeId el
  = Some (before +:+ replacement change +:+ after).
Proof.
  intros Hel Hc Hchange Hwr Hplain Hidx. cbv zeta.
  destruct (StringIndexOf_first _ _ _ Hidx) as [Hsplit Hfirst].
  split; [exact Hsplit |]. split; [exact Hfirst |].
  rewrite (accept_one_text doc i w el c change Hel Hc Hchange Hwr).
  by rewrite replace_plain, Hidx.
Qed.

Lemma accept_one_replaces_first_occurrence_witness :
  textOf (world_of (acceptSingleCorrection Samples.doc (Int 0)
                      Samples.repeatedSession)) !! 5
  = Some "I saw the cat and teh dog".
Proof.
  refine (proj2 (proj2 (accept_one_replaces_first_occurrence Samples.doc 0
            Samples.repeatedSession Samples.field Samples.repeatedResult
            Samples.repeatedFix 6 _ _ _ _ _ _)));
    reflexivity.
Defined.

(** When the original of an accepted change does not occur in the live
    text, the text written back is the text that was read. *)
Theorem accept_one_absent_original_keeps_text doc (i : nat) w el c change :
  activeElement w = Some el → currentCorrection w = Some c →
  changes c !! i = Some change →
  isTextField el || isContentEditable el = true →
  Js.StringIndexOf (getTextFromElement el w) (original change) = None →
  textOf (world_of (acceptSingleCorrection doc (Int (Z.of_nat i)) w)) !! nodeId el
  = Some (getTextFromElement el w).
Proof.
  intros Hel Hc Hchange Hwr Hidx.
  rewrite (accept_one_text doc i w el c change Hel Hc Hchange Hwr).
  unfold Js.replace. by rewrite Hidx.
Qed.

Lemma accept_one_absent_original_keeps_text_witness :
  textOf (world_of (acceptSingleCorrection Samples.doc (Int 0)
                      Samples.staleSession)) !! 5
  = Some "I saw the cat".
Proof.
  apply (accept_one_absent_original_keeps_text Samples.doc 0
           Samples.staleSession Samples.field Samples.repeatedResult
           Samples.repeatedFix); reflexivity.
Defined.

(** Once the tooltip has been closed or dismissed the accept paths can no
    longer touch the page: accept-one returns at once and Accept All writes
    nothing. *)
Theorem closed_tooltip_cannot_write doc index w :
  let closed := hideTooltip w in
  let dismissed := dismiss w in
  acceptSingleCorrection doc index closed = Returned closed ∧
  acceptSingleCorrection doc index dismissed = Returned dismissed ∧
  textOf (acceptCorrections doc closed) = textOf w ∧
  textOf (acceptCorrections doc dismissed) = textOf w ∧
  trace (acceptCorrections doc closed) = RemoveIndicator 0 :: trace closed ∧
  trace (acceptCorrections doc dismissed) = RemoveIndicator 0 :: trace dismissed.
Proof.
  cbv zeta.
  assert (Hgen : ∀ w0, currentCorrection w0 = None → indicators w0 = 0 →
            acceptSingleCorrection doc index w0 = Returned w0 ∧
            textOf (acceptCorrections doc w0) = textOf w0 ∧
            trace (acceptCorrections doc w0) = RemoveIndicator 0 :: trace w0).
  { intros w0 Hc Hi. split; [| split].
    - unfold acceptSingleCorrection. rewrite Hc. by destruct (activeElement w0).
    - unfold acceptCorrections. rewrite Hc.
      destruct (hideTooltip_frame
                  (match activeElement w0 with Some _ => w0 | None => w0 end))
        as (_ & _ & _ & Htx & _).
      rewrite Htx. by destruct (activeElement w0).
    - unfold acceptCorrections. rewrite Hc, hideTooltip_trace.
      destruct (activeElement w0); by rewrite Hi. }
  assert (Hclosed : ∀ w0, currentCorrection (hideTooltip w0) = None ∧
                          indicators (hideTooltip w0) = 0 ∧
                          textOf (hideTooltip w0) = textOf w0).
  { intros w0. destruct (hideTooltip_frame w0) as (_ & _ & Hc & Htx & _).
    split; [done |]. split; [| done]. by unfold hideTooltip. }
  destruct (Hclosed w) as (Hc1 & Hi1 & Hx1).
  destruct (Hclosed (set_dismissedElement (activeElement w) w)) as (Hc2 & Hi2 & Hx2).
  destruct (Hgen _ Hc1 Hi1) as (A1 & A2 & A3).
  destruct (Hgen _ Hc2 Hi2) as (B1 & B2 & B3).
  unfold dismiss. rewrite A2, B2, Hx1, Hx2. done.
Qed.

(** ** Focus loss *)

(** When focus leaves an element whose debounce timer is armed, the timer
    is cancelled and the check runs at once on the current text; no debounce
    callback follows it, however long one waits. *)
Theorem focus_out_checks_at_once doc (el raw : Node) latest w related :
  armedFor el latest w →
  qualifies doc raw el →
  tooltipEl w = None ∨ related = false →
  let w' := handleFocusOut doc raw related w in
  timers w' = [] ∧ debounceTimer w' = None ∧
  trace w' = (checkActions el (getTextFromElement el w) (indicators w)
              ++ trace w)%list ∧
  ∀ horizon, trace (advance horizon w') = trace w'.
Proof.
  intros (Ha & Hdis & id & Hd & Htm) [Hres Hcheck] Hrel. cbv zeta.
  assert (Hgate : bool_decide (is_Some (tooltipEl w)) && related = false).
  { destruct Hrel as [-> | ->]; [done | by rewrite andb_false_r]. }
  assert (Hw : timers (handleFocusOut doc raw related w) = [] ∧
               debounceTimer (handleFocusOut doc raw related w) = None ∧
               trace (handleFocusOut doc raw related w)
               = (checkActions el (getTextFromElement el w) (indicators w)
                  ++ trace w)%list).
  { unfold handleFocusOut. rewrite Hgate, Hres, Hcheck, Hd. simpl.
    unfold clearTimeout. rewrite Htm, filter_cons. simpl.
    rewrite decide_False by (intros H; by apply H). rewrite filter_nil.
    unfold checkActions.
    replace (getTextFromElement el _) with (getTextFromElement el w)
      by (symmetry; by apply getTextFromElement_textOf).
    destruct (_ <? _) eqn:Hshort; [done |].
    unfold checkGrammar. simpl. rewrite Hdis.
    replace (getTextFromElement el _) with (getTextFromElement el w)
      by (symmetry; by apply getTextFromElement_textOf).
    by rewrite Hshort. }
  destruct Hw as (Ht & Hdeb & Htrace). repeat split; try done.
  intros horizon. unfold advance. by rewrite Ht.
Qed.

Lemma focus_out_checks_at_once_witness :
  timers (handleFocusOut Samples.doc Samples.field false
            (handleInput Samples.doc Samples.field Samples.typed)) = [].
Proof.
  refine (proj1 (focus_out_checks_at_once Samples.doc Samples.field
                   Samples.field 0
                   (handleInput Samples.doc Samples.field Samples.typed)
                   false _ _ _)).
  - split; [reflexivity |]. split; [reflexivity |]. by exists 1.
  - split; reflexivity.
  - by left.
Defined.

(** ** After a check has ended *)

(** However a check ends (changes, a clean result, an unsuccessful response
    or a rejection), the tracking variables and the pending timer are as
    before, and the next qualifying input arms the debounce timer as usual. *)
Theorem check_outcome_never_blocks_next_input doc (checked el raw : Node)
        response w :
  applyingCorrection w = false →
  timersTracked w →
  qualifies doc raw el →
  let settled := checkGrammarSettled checked response w in
  tracking settled = tracking w ∧
  textOf settled = textOf w ∧
  armedFor el (now w) (handleInput doc raw settled).
Proof.
  intros Ha Htr Hq. cbv zeta.
  assert (Hsame : tracking (checkGrammarSettled checked response w) = tracking w ∧
                  textOf (checkGrammarSettled checked response w) = textOf w ∧
                  applyingCorrection (checkGrammarSettled checked response w) = false ∧
                  now (checkGrammarSettled checked response w) = now w).
  { destruct response as [data | error | message]; simpl; try done.
    destruct (changes data); [done |].
    unfold showTooltip, createTooltip. simpl. by destruct (tooltipEl w). }
  destruct Hsame as (Htrk & Htx & Ha' & Hnow).
  split; [done |]. split; [done |].
  assert (Htr' : timersTracked (checkGrammarSettled checked response w)).
  { unfold timersTracked. unfold tracking in Htrk.
    injection Htrk as Hd Ht _ _ _. by rewrite Hd, Ht. }
  destruct (handleInput_arms doc raw el _ Ha' Htr' Hq) as (Harm & _).
  by rewrite Hnow in Harm.
Qed.

Lemma check_outcome_never_blocks_next_input_witness :
  armedFor Samples.field 0
    (handleInput Samples.doc Samples.field
       (checkGrammarSettled Samples.field (Rejected "offline") Samples.typed)).
Proof.
  refine (proj2 (proj2 (check_outcome_never_blocks_next_input Samples.doc
            Samples.field Samples.field Samples.field (Rejected "offline")
            Samples.typed _ _ _))).
  - reflexivity.
  - intros tm Hin. inversion Hin.
  - split; reflexivity.
Defined.

(** ** Placement bounds *)

Lemma clamp_bounds (lo x hi : Q) :
  (lo <= Qmax lo (Qmin x hi))%Q ∧ ((lo <= hi)%Q → (Qmax lo (Qmin x hi) <= hi)%Q).
Proof.
  split; [apply Q.le_max_l |].
  intros Hle. apply Q.max_lub; [exact Hle | apply Q.le_min_r].
Qed.

(** The tooltip's final top is never above the top bound of the viewport
    clamp, and when the viewport is tall enough for the two bounds to be in
    order it is not below the bottom bound either, whichever side was
    chosen. *)
Theorem tooltip_top_is_clamped (elRect tipRect : Placement.Rect) win :
  let placed := Placement.positionTooltip elRect tipRect win in
  (Placement.minTop win <= Placement.styleTop placed)%Q ∧
  ((Placement.minTop win <= Placement.maxTop tipRect win)%Q →
   (Placement.styleTop placed <= Placement.maxTop tipRect win)%Q).
Proof.
  cbv zeta. unfold Placement.positionTooltip.
  destruct (if Placement.geq _ _ then _ else _) as [side top0]. simpl.
  apply clamp_bounds.
Qed.

Lemma tooltip_top_is_clamped_witness :
  (Placement.styleTop
     (Placement.positionTooltip (Placement.mkRect 580 100 200 30)
        (Placement.mkRect 0 0 300 150) (Placement.mkWindow 800 600 0 0))
   <= 440)%Q.
Proof.
  refine (proj2 (tooltip_top_is_clamped (Placement.mkRect 580 100 200 30)
                   (Placement.mkRect 0 0 300 150)
                   (Placement.mkWindow 800 600 0 0)) _).
  vm_compute. discriminate.
Defined.

(** The tooltip's left edge is never left of the viewport padding, and the
    arrow offset is at least 20 and, for a tooltip at least 40 wide, at most
    its width less 20. *)
Theorem tooltip_left_and_arrow_bounds (elRect tipRect : Placement.Rect) win :
  let placed := Placement.positionTooltip elRect tipRect win in
  (Placement.scrollX win + Placement.VIEWPORT_PADDING
   <= Placement.styleLeft placed)%Q ∧
  (20 <= Placement.arrowOffset placed)%Q ∧
  ((20 <= Placement.width tipRect - 20)%Q →
   (Placement.arrowOffset placed <= Placement.width tipRect - 20)%Q).
Proof.
  cbv zeta. unfold Placement.positionTooltip.
  destruct (if Placement.geq _ _ then _ else _) as [side top0]. simpl.
  split; [| apply clamp_bounds].
  unfold Placement.lt.
  destruct (Qle_bool (Placement.scrollX win + Placement.VIEWPORT_PADDING) _) eqn:Hle;
    simpl; [by apply Qle_bool_iff | apply Qle_refl].
Qed.

Lemma tooltip_left_and_arrow_bounds_witness :
  (Placement.arrowOffset
     (Placement.positionTooltip (Placement.mkRect 500 700 200 30)
        (Placement.mkRect 0 0 300 150) (Placement.mkWindow 800 600 0 0))
   <= 300 - 20)%Q.
Proof.
  refine (proj2 (proj2 (tooltip_left_and_arrow_bounds
            (Placement.mkRect 500 700 200 30) (Placement.mkRect 0 0 300 150)
            (Placement.mkWindow 800 600 0 0))) _).
  vm_compute. discriminate.
Defined.

(** The indicator dot is never above or left of the viewport padding, and
    when the viewport is wide enough for the horizontal bounds to be in order
    it is not right of the right bound either. *)
Theorem indicator_stays_inside (rect : Placement.Rect) win :
  let dot := Placement.positionIndicator rect win in
  (Placement.scrollY win + Placement.VIEWPORT_PADDING <= Placement.dotTop dot)%Q ∧
  (Placement.scrollX win + Placement.VIEWPORT_PADDING <= Placement.dotLeft dot)%Q ∧
  ((Placement.scrollX win + Placement.VIEWPORT_PADDING
    <= Placement.scrollX win + Placement.innerWidth win - Placement.DOT_SIZE
       - Placement.VIEWPORT_PADDING)%Q →
   (Placement.dotLeft dot
    <= Placement.scrollX win + Placement.innerWidth win - Placement.DOT_SIZE
       - Placement.VIEWPORT_PADDING)%Q).
Proof.
  cbv zeta. unfold Placement.positionIndicator. simpl.
  split; [apply Q.le_max_l |]. apply clamp_bounds.
Qed.

Lemma indicator_stays_inside_witness :
  (Placement.dotLeft
     (Placement.positionIndicator (Placement.mkRect 5 700 200 30)
        (Placement.mkWindow 800 600 0 0))
   <= 0 + 800 - 10 - 10)%Q.
Proof.
  refine (proj2 (proj2 (indicator_stays_inside (Placement.mkRect 5 700 200 30)
                          (Placement.mkWindow 800 600 0 0))) _).
  vm_compute. discriminate.
Defined.

(** * The provider contract and the service worker *)

(** ** Validation of provider results *)

Lemma isString_Text v : Provider.isString v = true → ∃ s, v = Provider.Text s.
Proof. destruct v; try done. by eexists. Qed.

Lemma changeIsValid_decodes c :
  Provider.changeIsValid c = true → is_Some (Provider.decodeChange c).
Proof.
  unfold Provider.changeIsValid, Provider.decodeChange.
  intros (((_ & Ho)%andb_true_iff & Hr)%andb_true_iff & He)%andb_true_iff.
  apply isString_Text in Ho as [o ->]. apply isString_Text in Hr as [r ->].
  apply isString_Text in He as [e ->]. by eexists.
Qed.

Lemma firstMalformed_none items : ∀ i,
  Provider.firstMalformed i items = None →
  is_Some (mapM Provider.decodeChange items).
Proof.
  induction items as [|c rest IH]; intros i; [by eexists |]. simpl.
  destruct (Provider.changeIsValid c) eqn:Hc; [| done].
  intros Hrest. destruct (IH _ Hrest) as [cs Hcs].
  destruct (changeIsValid_decodes c Hc) as [x Hx].
  exists (x :: cs). cbn. rewrite Hx. cbn. by rewrite Hcs.
Qed.

Lemma validateResponse_sound result checked :
  Provider._validateResponse result = Provider.Returns checked →
  checked = result ∧ is_Some (Provider.decode result).
Proof.
  unfold Provider._validateResponse, Provider.decode.
  destruct (negb _ || negb _); [done |].
  destruct (Provider.isString (Provider.get result "corrected")) eqn:Hs; [| done].
  apply isString_Text in Hs as [s ->]. simpl.
  destruct (Provider.get result "changes") as [| | | | |items|]; try done.
  destruct (Provider.firstMalformed 0 items) eqn:Hm; [done |].
  intros [= <-]. split; [done |].
  destruct (firstMalformed_none items 0 Hm) as [cs ->]. by eexists.
Qed.

Lemma correctGrammar_sound apiKey call text result :
  Provider.correctGrammar apiKey call text = Provider.Returns result →
  is_Some (Provider.decode result).
Proof.
  unfold Provider.correctGrammar.
  destruct (Provider.validateApiKey apiKey); [| done].
  destruct (_ || _).
  - intros [= <-]. by eexists.
  - destruct (call text) as [v | m]; [| done].
    intros H. by apply validateResponse_sound in H as [-> H].
Qed.

(** Whatever [correctGrammar] returns can be read as a correction result: a
    string [corrected] and an array of changes with three string fields
    each. *)
Theorem returned_result_is_well_shaped apiKey call text result :
  Provider.correctGrammar apiKey call text = Provider.Returns result →
  ∃ r, Provider.decode result = Some r.
Proof. intros H. by apply correctGrammar_sound in H as [r Hr]; exists r. Qed.

Lemma returned_result_is_well_shaped_witness :
  ∃ r, Provider.decode (Provider.encode Samples.shellResult) = Some r.
Proof.
  apply (returned_result_is_well_shaped (Provider.Text "sk-test")
           (λ _, Provider.Delivered (Provider.encode Samples.shellResult))
           Samples.shellNote).
  reflexivity.
Defined.

Lemma decode_encodeChange c : Provider.decodeChange (Provider.encodeChange c) = Some c.
Proof. by destruct c. Qed.

Lemma changeIsValid_encodeChange c :
  Provider.changeIsValid (Provider.encodeChange c) = true.
Proof. reflexivity. Qed.

Lemma mapM_decode_encode cs :
  mapM Provider.decodeChange (Provider.encodeChange <$> cs) = Some cs.
Proof.
  induction cs as [|c cs IH]; [done |]. cbn.
  rewrite decode_encodeChange. cbn. by rewrite IH.
Qed.

Lemma firstMalformed_encode cs : ∀ i,
  Provider.firstMalformed i (Provider.encodeChange <$> cs) = None.
Proof.
  induction cs as [|c cs IH]; intros i; [done |]. cbn.
  rewrite changeIsValid_encodeChange. apply IH.
Qed.

Lemma validKey_passes key :
  Js.trim key ≠ "" →
  Provider.validateApiKey (Provider.Text key) = Provider.Returns true.
Proof.
  intros Hkey. unfold Provider.validateApiKey. simpl.
  assert (key ≠ "") by (intros ->; by apply Hkey).
  by rewrite !bool_decide_eq_false_2.
Qed.

(** A result that follows the response contract passes validation
    unchanged and reads back as the result it encodes, and [correctGrammar]
    hands it on when the key is set and the text is not blank. *)
Theorem contract_result_is_accepted key call text r :
  Js.trim key ≠ "" → Js.trim text ≠ "" →
  call text = Provider.Delivered (Provider.encode r) →
  Provider.correctGrammar (Provider.Text key) call text
  = Provider.Returns (Provider.encode r) ∧
  Provider.decode (Provider.encode r) = Some r.
Proof.
  intros Hkey Htext Hcall. split.
  - unfold Provider.correctGrammar. rewrite validKey_passes by done.
    assert (text ≠ "") by (intros ->; by apply Htext).
    assert (String.length (Js.trim text) ≠ 0)
      by (destruct (Js.trim text); [done | simpl; lia]).
    rewrite !bool_decide_eq_false_2 by done. simpl. rewrite Hcall.
    unfold Provider._validateResponse.
    change (Provider.get (Provider.encode r) "corrected")
      with (Provider.Text (corrected r)).
    change (Provider.get (Provider.encode r) "changes")
      with (Provider.Array (Provider.encodeChange <$> changes r)).
    cbv iota. by rewrite firstMalformed_encode.
  - unfold Provider.decode.
    change (Provider.get (Provider.encode r) "corrected")
      with (Provider.Text (corrected r)).
    change (Provider.get (Provider.encode r) "changes")
      with (Provider.Array (Provider.encodeChange <$> changes r)).
    cbv iota. rewrite mapM_decode_encode. by destruct r.
Qed.

Lemma contract_result_is_accepted_witness :
  Provider.decode (Provider.encode Samples.shellResult) = Some Samples.shellResult.
Proof.
  refine (proj2 (contract_result_is_accepted "sk-test"
                   (λ _, Provider.Delivered (Provider.encode Samples.shellResult))
                   Samples.shellNote Samples.shellResult _ _ _)).
  - discriminate.
  - discriminate.
  - reflexivity.
Defined.

Lemma missing_key_blank key call text :
  Js.trim key = "" →
  Provider.correctGrammar (Provider.Text key) call text
  = Provider.Throws Provider.ApiKeyRequired.
Proof.
  intros Hkey. unfold Provider.correctGrammar, Provider.validateApiKey. simpl.
  rewrite (bool_decide_eq_true_2 _ Hkey). by rewrite orb_true_r.
Qed.

(** Without a usable API key (missing, not a string, or blank)
    [correctGrammar] fails with "API key is required" whatever the text is,
    the blank text included, and the provider's own call plays no part. *)
Theorem missing_key_is_refused_first apiKey call text :
  (∀ key, apiKey = Provider.Text key → Js.trim key = "") →
  Provider.correctGrammar apiKey call text
  = Provider.Throws Provider.ApiKeyRequired.
Proof.
  intros Hkey. unfold Provider.correctGrammar, Provider.validateApiKey.
  destruct apiKey as [| | b | q | key | items | props]; try done.
  - by destruct b.
  - simpl. by destruct (Qeq_bool q 0).
  - by apply missing_key_blank, Hkey.
Qed.

Lemma missing_key_is_refused_first_witness :
  Provider.correctGrammar (Provider.Text "   ")
    (λ _, Provider.Delivered (Provider.encode Samples.shellResult)) ""
  = Provider.Throws Provider.ApiKeyRequired.
Proof.
  apply missing_key_is_refused_first. intros key [= <-]. reflexivity.
Defined.

(** With a key, an empty or blank text is answered on the spot with the
    text itself and no changes; the provider's own call is not made. *)
Theorem blank_text_short_circuits key call text :
  Js.trim key ≠ "" → Js.trim text = "" →
  Provider.correctGrammar (Provider.Text key) call text
  = Provider.Returns (Provider.encode (mkCorrection text [])).
Proof.
  intros Hkey Htext. unfold Provider.correctGrammar.
  rewrite validKey_passes by done. rewrite Htext. simpl.
  by rewrite orb_true_r.
Qed.

Lemma blank_text_short_circuits_witness :
  Provider.correctGrammar (Provider.Text "sk-test")
    (λ _, Provider.Failed "never called") "  "
  = Provider.Returns (Provider.encode (mkCorrection "  " [])).
Proof.
  apply blank_text_short_circuits; [discriminate | reflexivity].
Defined.

Lemma firstMalformed_app good bad rest : ∀ i,
  forallb Provider.changeIsValid good = true →
  Provider.changeIsValid bad = false →
  Provider.firstMalformed i (good ++ bad :: rest) = Some (i + length good).
Proof.
  induction good as [|c good IH]; intros i Hgood Hbad; simpl.
  - rewrite Hbad. f_equal. lia.
  - simpl in Hgood. apply andb_true_iff in Hgood as [Hc Hgood].
    rewrite Hc, IH by done. f_equal. lia.
Qed.

(** When some change of an otherwise well-formed result is malformed,
    validation fails naming the index of the first malformed one. *)
Theorem first_malformed_change_is_reported props s good bad rest :
  Provider.lookupProp props "corrected" = Provider.Text s →
  Provider.lookupProp props "changes" = Provider.Array (good ++ bad :: rest) →
  forallb Provider.changeIsValid good = true →
  Provider.changeIsValid bad = false →
  Provider._validateResponse (Provider.Object props)
  = Provider.Throws (Provider.MalformedChange (length good)).
Proof.
  intros Hs Hc Hgood Hbad. unfold Provider._validateResponse. simpl.
  rewrite Hs, Hc. simpl. by rewrite firstMalformed_app.
Qed.

Lemma first_malformed_change_is_reported_witness :
  Provider._validateResponse Samples.brokenReply
  = Provider.Throws (Provider.MalformedChange 1).
Proof.
  apply (first_malformed_change_is_reported _ "the cat"
           [Provider.encodeChange Samples.repeatedFix]
           (Provider.Object [("original", Provider.Text "a");
                             ("replacement", Provider.Text "b")]) []);
    reflexivity.
Defined.

(** ** Construction and the registry *)

Lemma construct_returns P key m inst :
  Provider.construct P key m = Provider.Returns inst →
  Provider.providerClass inst = P ∧ Provider.apiKey inst = key ∧
  Provider.model inst ≠ "" ∧
  (m = Some (Provider.model inst) ∨
   ∃ mi, mi ∈ Provider.models P ∧ Provider.modelId mi = Provider.model inst ∧
         Provider.model inst = Provider.defaultModel P).
Proof.
  unfold Provider.construct, Provider._enforceStaticContract.
  destruct (bool_decide (Provider.models P = [])); [done |].
  destruct (forallb _ _) eqn:Hall; [| done]. simpl.
  destruct (existsb _ _) eqn:Hex; [| done]. simpl.
  intros [= <-]. simpl. split; [done |]. split; [done |].
  apply existsb_exists in Hex as (mi & Hin & Hid).
  apply bool_decide_eq_true_1 in Hid.
  assert (Provider.defaultModel P ≠ "") as Hdef.
  { rewrite forallb_forall in Hall. specialize (Hall mi Hin).
    apply andb_true_iff in Hall as [[Hm _]%andb_true_iff _].
    apply negb_true_iff, bool_decide_eq_false_1 in Hm. by rewrite <- Hid. }
  assert (∃ mi, mi ∈ Provider.models P ∧
                Provider.modelId mi = Provider.defaultModel P) as Hlisted.
  { exists mi. split; [by apply list_elem_of_In | done]. }
  destruct m as [m|].
  - destruct (decide (m = "")) as [-> | Hm].
    + split; [done |]. right. destruct Hlisted as (x & ? & ?). by exists x.
    + split; [done |]. by left.
  - split; [done |]. right. destruct Hlisted as (x & ? & ?). by exists x.
Qed.

(** An instance that was constructed always has a model: the requested one
    when it is given and not empty, and otherwise the class's default, which
    the static contract has checked to be one of the listed models. *)
Theorem constructed_instance_has_a_model P key m inst :
  Provider.construct P key m = Provider.Returns inst →
  Provider.model inst ≠ "" ∧
  (m = Some (Provider.model inst) ∨
   ∃ mi, mi ∈ Provider.models P ∧ Provider.modelId mi = Provider.model inst).
Proof.
  intros H. apply construct_returns in H as (_ & _ & Hne & [Hm | (mi & ? & ? & _)]).
  - split; [done |]. by left.
  - split; [done |]. right. by exists mi.
Qed.

Lemma constructed_instance_has_a_model_witness :
  ∃ inst, Provider.construct Provider.OpenAIProvider "sk-test" (Some "")
          = Provider.Returns inst ∧ Provider.model inst ≠ "".
Proof.
  eexists. split; [reflexivity |].
  exact (proj1 (constructed_instance_has_a_model Provider.OpenAIProvider
                  "sk-test" (Some "") _ eq_refl)).
Defined.

Lemma createProvider_returns providerId key m p :
  Provider.createProvider providerId key m = Provider.Returns p →
  Provider.id (Provider.providerClass p) = providerId ∧
  Provider.apiKey p = key ∧
  (m = Some (Provider.model p) ∨
   Provider.model p = Provider.defaultModel (Provider.providerClass p)).
Proof.
  unfold Provider.createProvider, Provider.PROVIDERS_BY_ID.
  destruct (find _ _) as [P|] eqn:Hfind; [| done].
  apply find_some in Hfind as [_ Hid]. apply bool_decide_eq_true_1 in Hid.
  intros H. apply construct_returns in H as (-> & -> & _ & [Hm | (mi & _ & _ & Hd)]).
  - split; [done |]. split; [done |]. by left.
  - split; [done |]. split; [done |]. by right.
Qed.

Lemma createProvider_throws providerId key m e :
  Provider.createProvider providerId key m = Provider.Throws e →
  e = Provider.UnknownProvider providerId ∨ e = Provider.BrokenContract.
Proof.
  unfold Provider.createProvider.
  destruct (Provider.PROVIDERS_BY_ID providerId) as [P|]; [| intros [= <-]; by left].
  unfold Provider.construct, Provider._enforceStaticContract.
  destruct (bool_decide _); [intros [= <-]; by right |].
  destruct (negb _); [intros [= <-]; by right |].
  destruct (negb _); [intros [= <-]; by right | done].
Qed.

(** ** The provider cache *)

Lemma getOrCreateProvider_throws providerId key m cache e cache' :
  Worker.getOrCreateProvider providerId key m cache = (Provider.Throws e, cache') →
  cache' = cache ∧
  (e = Provider.UnknownProvider providerId ∨ e = Provider.BrokenContract).
Proof.
  unfold Worker.getOrCreateProvider.
  destruct (Worker.cachedProvider cache) as [p|];
    [destruct (decide _); [done |] |];
    (destruct (Provider.createProvider providerId key m) eqn:Hc; [done |]);
    intros [= <- <-]; (split; [done |]); by apply createProvider_throws in Hc.
Qed.

Lemma changed_settings_fresh keys cache providerId key m p cache' :
  "providerId" ∈ keys ∨ "apiKey" ∈ keys ∨ "model" ∈ keys →
  Worker.getOrCreateProvider providerId key m (Worker.storageChanged keys cache)
  = (Provider.Returns p, cache') →
  Provider.id (Provider.providerClass p) = providerId ∧
  Provider.apiKey p = key ∧
  (m = Some (Provider.model p) ∨
   Provider.model p = Provider.defaultModel (Provider.providerClass p)) ∧
  cache' = Worker.mkCache (Some p) (Worker.providerCacheKey providerId key m).
Proof.
  intros Hkeys. unfold Worker.storageChanged.
  rewrite (bool_decide_eq_true_2 _ Hkeys).
  unfold Worker.getOrCreateProvider. simpl.
  destruct (Provider.createProvider providerId key m) as [p'|e] eqn:Hc; [| done].
  intros [= <- <-]. apply createProvider_returns in Hc as (? & ? & ?). done.
Qed.



(** A request that got a provider leaves the cache such that the same
    request gets the very same instance again, with the cache unchanged. *)
Theorem repeated_request_reuses_provider providerId key m cache p cache' :
  Worker.getOrCreateProvider providerId key m cache = (Provider.Returns p, cache') →
  Worker.getOrCreateProvider providerId key m cache' = (Provider.Returns p, cache').
Proof.
  unfold Worker.getOrCreateProvider.
  destruct (Worker.cachedProvider cache) as [q|] eqn:Hq.
  - destruct (decide _) as [Hk | Hk].
    + intros [= <- <-]. rewrite Hq. by rewrite decide_True.
    + destruct (Provider.createProvider providerId key m); [| done].
      intros [= <- <-]. simpl. by rewrite decide_True.
  - destruct (Provider.createProvider providerId key m); [| done].
    intros [= <- <-]. simpl. by rewrite decide_True.
Qed.

Lemma repeated_request_reuses_provider_witness :
  Worker.getOrCreateProvider "openai" "sk-test" None
    (Worker.mkCache
       (Some (Provider.mkInstance Provider.OpenAIProvider "sk-test" "gpt-4o-mini"))
       "openai|sk-test|undefined")
  = (Provider.Returns
       (Provider.mkInstance Provider.OpenAIProvider "sk-test" "gpt-4o-mini"),
     Worker.mkCache
       (Some (Provider.mkInstance Provider.OpenAIProvider "sk-test" "gpt-4o-mini"))
       "openai|sk-test|undefined").
Proof.
  apply (repeated_request_reuses_provider "openai" "sk-test" None Worker.emptyCache).
  reflexivity.
Defined.

(** ** Requests through the service worker *)

Lemma validateResponse_throws result e :
  Provider._validateResponse result = Provider.Throws e →
  e ≠ Provider.Disabled ∧ e ≠ Provider.NoApiKey.
Proof.
  unfold Provider._validateResponse.
  repeat (case_match; try done); by intros [= <-].
Qed.

Lemma correctGrammar_throws apiKey call text e :
  Provider.correctGrammar apiKey call text = Provider.Throws e →
  e ≠ Provider.Disabled ∧ e ≠ Provider.NoApiKey.
Proof.
  unfold Provider.correctGrammar, Provider.validateApiKey.
  destruct (_ || _ || _); [by intros [= <-] |].
  destruct (_ || _); [done |].
  destruct (call text); [apply validateResponse_throws | by intros [= <-]].
Qed.

(** The content script starts (attaches its listeners) exactly when the
    service worker's own gates would let a check through: start-up is
    refused for a status computed from the settings if and only if a
    [CHECK_GRAMMAR] request under those settings is answered with
    "disabled" or "no API key", and then the provider cache is left as it
    was. *)
Theorem startup_agrees_with_worker_gates s call text cache :
  Worker.init (Some (Worker.getExtensionStatus s)) = false ↔
  Worker.checkGrammarMessage s call text cache
  = (Worker.ReplyFailure Provider.Disabled, cache) ∨
  Worker.checkGrammarMessage s call text cache
  = (Worker.ReplyFailure Provider.NoApiKey, cache).
Proof.
  unfold Worker.init, Worker.getExtensionStatus, Worker.checkGrammarMessage,
    Worker.handleGrammarCheck. simpl.
  destruct (bool_decide (Worker.enabled s = Some false)); simpl.
  { destruct (Worker.hasKey s); simpl; split; auto. }
  destruct (Worker.hasKey s); simpl; [| split; auto].
  split; [done |].
  destruct (Worker.getOrCreateProvider _ _ _ _) as [[p|e] c] eqn:Hg.
  - destruct (Provider.correctGrammar _ _ _) as [v|e] eqn:Hc.
    + by intros [? | ?].
    + apply correctGrammar_throws in Hc as [? ?]. intros [[= ? ?] | [= ? ?]]; done.
  - apply getOrCreateProvider_throws in Hg as [_ [-> | ->]];
      intros [[= ?] | [= ?]]; done.
Qed.

(** Every successful reply to [CHECK_GRAMMAR] carries data the content
    script can read: a string [corrected] and an array of changes whose
    three fields are strings. *)
Theorem successful_reply_is_readable s call text cache data cache' :
  Worker.checkGrammarMessage s call text cache = (Worker.ReplySuccess data, cache') →
  ∃ r, Provider.decode data = Some r.
Proof.
  unfold Worker.checkGrammarMessage, Worker.handleGrammarCheck.
  destruct (bool_decide _); [done |].
  destruct (negb _); [done |].
  destruct (Worker.getOrCreateProvider _ _ _ _) as [[p|e] c]; [| done].
  destruct (Provider.correctGrammar _ _ _) as [v|e] eqn:Hc; [| done].
  intros [= <- <-]. by apply correctGrammar_sound in Hc as [r Hr]; exists r.
Qed.

Lemma successful_reply_is_readable_witness :
  ∃ r, Provider.decode (Provider.encode Samples.shellResult) = Some r.
Proof.
  apply (successful_reply_is_readable Samples.savedSettings
           (Samples.answering (Provider.encode Samples.shellResult))
           Samples.shellNote Worker.emptyCache _
           (Worker.mkCache
              (Some (Provider.mkInstance Provider.OpenAIProvider "sk-test"
                       "gpt-4o-mini"))
              "openai|sk-test|undefined")).
  reflexivity.
Defined.

Lemma correctGrammar_returns apiKey call text result :
  Provider.correctGrammar apiKey call text = Provider.Returns result →
  Provider.truthy result = true ∧
  Provider.isString (Provider.get result "corrected") = true.
Proof.
  unfold Provider.correctGrammar.
  destruct (Provider.validateApiKey apiKey); [| done].
  destruct (_ || _); [by intros [= <-] |].
  destruct (call text) as [v|]; [| done].
  unfold Provider._validateResponse.
  destruct (Provider.truthy v) eqn:Ht; [| done]. simpl.
  destruct (bool_decide _); [| done]. simpl.
  destruct (Provider.isString (Provider.get v "corrected")) eqn:Hs; [| done].
  simpl. destruct (Provider.get v "changes"); try done.
  destruct (Provider.firstMalformed _ _); [done |].
  intros [= <-]. by rewrite Ht, Hs.
Qed.

(** Verifying settings never ends with "Unexpected response from provider":
    a result that [correctGrammar] returns has already passed the same test,
    so verification either succeeds or reports the error that was thrown. *)
Theorem verify_never_reports_unexpected_response providerId key m call :
  Worker.verifySettings providerId key m call ≠ Worker.UnexpectedResponse.
Proof.
  unfold Worker.verifySettings.
  destruct (Provider.createProvider _ _ _) as [p|e]; [| done].
  destruct (Provider.correctGrammar _ _ _) as [v|e] eqn:Hc; [| done].
  apply correctGrammar_returns in Hc as [-> ->]. done.
Qed.

(** A stored key of white space only counts as configured, so the content
    script starts; but then no check can succeed: once the key is saved,
    every [CHECK_GRAMMAR] request is answered with a failure. *)
Theorem blank_stored_key_starts_but_never_checks s key keys cache call text :
  Worker.storedKey s = Some key → key ≠ "" → Js.trim key = "" →
  Worker.enabled s ≠ Some false → "apiKey" ∈ keys →
  Worker.init (Some (Worker.getExtensionStatus s)) = true ∧
  ∃ e, (Worker.checkGrammarMessage s call text
          (Worker.storageChanged keys cache)).1 = Worker.ReplyFailure e.
Proof.
  intros Hs Hne Hblank Hen Hkeys. split.
  - unfold Worker.init, Worker.getExtensionStatus, Worker.hasKey. simpl.
    rewrite Hs. by rewrite !bool_decide_eq_false_2.
  - unfold Worker.checkGrammarMessage, Worker.handleGrammarCheck, Worker.hasKey.
    rewrite Hs. simpl. rewrite !bool_decide_eq_false_2 by done. simpl.
    destruct (Worker.getOrCreateProvider _ _ _ _) as [[p|e] c] eqn:Hg;
      [| by eexists].
    apply changed_settings_fresh in Hg as (_ & -> & _); [| by auto].
    rewrite missing_key_blank by done. by eexists.
Qed.

Lemma blank_stored_key_starts_but_never_checks_witness :
  Worker.init (Some (Worker.getExtensionStatus
                       (Worker.mkSettings None (Some "  ") None None))) = true.
Proof.
  refine (proj1 (blank_stored_key_starts_but_never_checks
    (Worker.mkSettings None (Some "  ") None None) "  " ["apiKey"]
    Worker.emptyCache (λ _ _, Provider.Failed "unused") "some text" _ _ _ _ _)).
  - reflexivity.
  - discriminate.
  - reflexivity.
  - discriminate.
  - by apply list_elem_of_here.
Defined.
